(** * ShareeModel: the sharee search model of the desktop client

  A shallow embedding of [src/gui/filedetails/shareemodel.cpp].  The
  model object becomes a record, its slots become commands of a small
  state-and-trace monad (the trace records emitted signals, log lines
  and the request handed to the sharee job), and the Qt value classes
  the code uses ([QString], [QJsonValue], [QJsonObject],
  [QJsonDocument], [QModelIndex], [QVector], [QVariant]) are modelled
  with the behaviour documented by Qt. *)

From Stdlib Require Import ZArith QArith Lia Ascii String.
From stdpp Require Import base option gmap strings list.

Set Warnings "-register-all".

(** ** Qt value classes *)

Module Qt.

(** *** QString *)

Abbreviation QString := string.

Definition isEmpty (s : QString) : bool :=
  match s with
  | EmptyString => true
  | String _ _ => false
  end.

(** *** QString::arg(a1, a2)

    The two-argument overload replaces the place markers of the
    pattern in one pass: a marker is [%] followed by an optional [L]
    and decimal digits, the lowest marker number stands for [a1] and
    the next one for [a2]; other markers stay as they are written. *)

Inductive Part : Type :=
  | Lit (c : ascii)
  | Marker (number : nat) (raw : QString).

Inductive Scan : Type :=
  | Plain
  | Percent (raw : QString)
  | Digits (number : nat) (raw : QString).

Definition digitOf (c : ascii) : option nat :=
  let n := nat_of_ascii c in
  if (48 <=? n)%nat && (n <=? 57)%nat then Some (n - 48)%nat else None.

Definition lits (s : QString) : list Part :=
  Lit <$> list_ascii_of_string s.

Definition snoc (s : QString) (c : ascii) : QString :=
  s +:+ String c EmptyString.

Definition flush (st : Scan) : list Part :=
  match st with
  | Plain => []
  | Percent raw => lits raw
  | Digits n raw => [Marker n raw]
  end.

Fixpoint scan (st : Scan) (s : QString) : list Part :=
  match s with
  | EmptyString => flush st
  | String c rest =>
      let restart :=
        if Ascii.eqb c "%" then scan (Percent "%") rest
        else Lit c :: scan Plain rest in
      match st with
      | Plain => restart
      | Percent raw =>
          match digitOf c with
          | Some d => scan (Digits d (snoc raw c)) rest
          | None =>
              if Ascii.eqb c "L" && String.eqb raw "%"
              then scan (Percent (snoc raw c)) rest
              else lits raw ++ restart
          end
      | Digits n raw =>
          match digitOf c with
          | Some d => scan (Digits (10 * n + d) (snoc raw c)) rest
          | None => Marker n raw :: restart
          end
      end
  end.

Definition markerNumbers (ps : list Part) : list nat :=
  omap (λ p, match p with Marker n _ => Some n | Lit _ => None end) ps.

Definition lowest (ns : list nat) : option nat :=
  match ns with
  | [] => None
  | n :: ns' => Some (foldr Nat.min n ns')
  end.

Definition render (first second : option nat) (a1 a2 : QString) (p : Part)
  : QString :=
  match p with
  | Lit c => String c EmptyString
  | Marker n raw =>
      if bool_decide (first = Some n) then a1
      else if bool_decide (second = Some n) then a2
      else raw
  end.

Definition arg (pattern a1 a2 : QString) : QString :=
  let parts := scan Plain pattern in
  let ns := markerNumbers parts in
  let first := lowest ns in
  let second := lowest (filter (λ n, first ≠ Some n) ns) in
  foldr (λ p out, render first second a1 a2 p +:+ out) EmptyString parts.

(** *** QJsonValue, QJsonArray, QJsonObject, QJsonDocument *)

Inductive QJsonValue : Type :=
  | JsonNull
  | JsonBool (b : bool)
  | JsonDouble (d : Q)
  | JsonString (s : QString)
  | JsonArray (a : list QJsonValue)
  | JsonObject (o : gmap string QJsonValue)
  | JsonUndefined.

Abbreviation QJsonArray := (list QJsonValue).
Abbreviation QJsonObject := (gmap string QJsonValue).

Inductive QJsonDocument : Type :=
  | DocumentNull
  | DocumentArray (a : QJsonArray)
  | DocumentObject (o : QJsonObject).

(** [QJsonObject::value(key)]: [Undefined] when the key is absent. *)
Definition value (o : QJsonObject) (key : string) : QJsonValue :=
  default JsonUndefined (o !! key).

(** The conversions give the default of the target type when the
    value has another type. *)
Definition toArray (v : QJsonValue) : QJsonArray :=
  match v with
  | JsonArray a => a
  | _ => []
  end.

Definition toObject (v : QJsonValue) : QJsonObject :=
  match v with
  | JsonObject o => o
  | _ => ∅
  end.

Definition toString (v : QJsonValue) : QString :=
  match v with
  | JsonString s => s
  | _ => EmptyString
  end.

Definition INT_MIN : Z := - 2 ^ 31.
Definition INT_MAX : Z := 2 ^ 31 - 1.

(** [QJsonValue::toInt(defaultValue = 0)]: the number when it is whole
    and fits an [int], the default otherwise. *)
Definition toInt (v : QJsonValue) : Z :=
  match v with
  | JsonDouble d =>
      let r := Qred d in
      if (Qden r =? 1)%positive && (INT_MIN <=? Qnum r)%Z && (Qnum r <=? INT_MAX)%Z
      then Qnum r
      else 0%Z
  | _ => 0%Z
  end.

(** [QJsonDocument::object()]: empty unless the document holds an
    object. *)
Definition object (doc : QJsonDocument) : QJsonObject :=
  match doc with
  | DocumentObject o => o
  | _ => ∅
  end.

(** *** QModelIndex *)

Record QModelIndex : Type := mkIndex {
  row : Z;
  column : Z;
  hasModel : bool
}.

Definition isValid (i : QModelIndex) : bool :=
  (0 <=? row i)%Z && (0 <=? column i)%Z && hasModel i.

(** *** QVector

    [QVector::at(i)] requires [0 <= i < size()]; outside of it the
    call is an assertion failure ("index out of range") and no element
    is read. *)

Inductive Checked (A : Type) : Type :=
  | Ok (a : A)
  | IndexOutOfRange.
Arguments Ok {A} a.
Arguments IndexOutOfRange {A}.

Definition size {A} (v : list A) : Z := Z.of_nat (length v).

Definition at_ {A} (v : list A) (i : Z) : Checked A :=
  if (0 <=? i)%Z && (i <? size v)%Z then
    match v !! Z.to_nat i with
    | Some x => Ok x
    | None => IndexOutOfRange
    end
  else IndexOutOfRange.

(** Item data roles of [Qt::ItemDataRole]. *)
Definition DisplayRole : Z := 0.
Definition UserRole : Z := 256.

End Qt.

Import Qt.


(** ** Collaborators of the model *)

(** Modelled from the spec: the [Sharee] value class ([sharee.h] is not
    among the sources).  A recipient candidate holds the share target
    [shareWith], its [displayName] and its [type]; the type is the
    integer code of the enumeration, kept as it is for codes the
    enumeration does not name. *)
Record Sharee : Type := mkSharee {
  shareWith : QString;
  displayName : QString;
  type : Z
}.

#[global] Instance Sharee_eq_dec : EqDecision Sharee.
Proof. solve_decision. Defined.

(** [QSharedPointer<Sharee>]; [None] is the null pointer. *)
Abbreviation ShareePtr := (option Sharee).

(** The account a job is created for; the model only passes it on. *)
Inductive Account : Type :=
  | AccountRef (id : nat).

#[global] Instance Account_eq_dec : EqDecision Account.
Proof. solve_decision. Defined.

(** The object behind an [AccountState *], told apart by its address;
    [AccountState::account()] may be null. *)
Record AccountState : Type := mkAccountState {
  address : nat;
  account : option Account
}.

#[global] Instance AccountState_eq_dec : EqDecision AccountState.
Proof. solve_decision. Defined.

(** Modelled from the spec: [ShareeModel::LookupMode], declared in
    [shareemodel.h], which is not among the sources. *)
Inductive LookupMode : Type :=
  | LocalSearch
  | GlobalSearch.

#[global] Instance LookupMode_eq_dec : EqDecision LookupMode.
Proof. solve_decision. Defined.

(** The variants [data] returns; [Invalid] is the empty [QVariant]. *)
Inductive QVariant : Type :=
  | Invalid
  | VariantString (s : QString)
  | VariantSharee (p : ShareePtr).

(** ** Observable effects *)

Inductive Signal : Type :=
  | accountStateChanged
  | shareItemIsFolderChanged
  | searchStringChanged
  | lookupModeChanged
  | fetchOngoingChanged
  | shareesReady
  | displayErrorMessage (statusCode : Z) (message : QString).

Inductive LogLevel : Type :=
  | Info
  | Warning.

(** What a slot does besides changing the fields of the model: signals
    in emission order, the model-reset brackets, log lines (the literal
    text only), the restart of the typing timer, and the one call the
    model makes on a sharee job. *)
Inductive Effect : Type :=
  | Emit (s : Signal)
  | BeginResetModel
  | EndResetModel
  | Log (level : LogLevel) (text : QString)
  | TimerStart
  | GetSharees (acc : option Account) (search itemType : QString)
               (page perPage : Z) (lookup : bool).

(** ** The model object

    The fields of the class.  [_shareeBlacklist] holds the objects its
    pointers refer to: [shareesFetched] reads through every one of them
    without a null check. *)

Record ShareeModel : Type := mkShareeModel {
  _accountState : option AccountState;
  _shareItemIsFolder : bool;
  _searchString : QString;
  _fetchOngoing : bool;
  _lookupMode : LookupMode;
  _sharees : list ShareePtr;
  _shareeBlacklist : list Sharee
}.

Definition set_accountState (v : option AccountState) (this : ShareeModel) :=
  mkShareeModel v (_shareItemIsFolder this) (_searchString this)
    (_fetchOngoing this) (_lookupMode this) (_sharees this)
    (_shareeBlacklist this).

Definition set_shareItemIsFolder (v : bool) (this : ShareeModel) :=
  mkShareeModel (_accountState this) v (_searchString this)
    (_fetchOngoing this) (_lookupMode this) (_sharees this)
    (_shareeBlacklist this).

Definition set_searchString (v : QString) (this : ShareeModel) :=
  mkShareeModel (_accountState this) (_shareItemIsFolder this) v
    (_fetchOngoing this) (_lookupMode this) (_sharees this)
    (_shareeBlacklist this).

Definition set_fetchOngoing (v : bool) (this : ShareeModel) :=
  mkShareeModel (_accountState this) (_shareItemIsFolder this)
    (_searchString this) v (_lookupMode this) (_sharees this)
    (_shareeBlacklist this).

Definition set_lookupMode (v : LookupMode) (this : ShareeModel) :=
  mkShareeModel (_accountState this) (_shareItemIsFolder this)
    (_searchString this) (_fetchOngoing this) v (_sharees this)
    (_shareeBlacklist this).

Definition set_sharees (v : list ShareePtr) (this : ShareeModel) :=
  mkShareeModel (_accountState this) (_shareItemIsFolder this)
    (_searchString this) (_fetchOngoing this) (_lookupMode this) v
    (_shareeBlacklist this).

(** ** Slots as commands: state passing with an effect trace *)

Definition Cmd (A : Type) : Type := ShareeModel → A * ShareeModel * list Effect.

#[global] Instance Cmd_ret : MRet Cmd := λ A a this, (a, this, []).

#[global] Instance Cmd_bind : MBind Cmd := λ A B f c this,
  let '(a, this1, t1) := c this in
  let '(b, this2, t2) := f a this1 in
  (b, this2, t1 ++ t2).

Definition self : Cmd ShareeModel := λ this, (this, this, []).

Definition assign (f : ShareeModel → ShareeModel) : Cmd unit :=
  λ this, (tt, f this, []).

Definition effect (e : Effect) : Cmd unit := λ this, (tt, this, [e]).

Definition Q_EMIT (s : Signal) : Cmd unit := effect (Emit s).

Definition state_of {A} (r : A * ShareeModel * list Effect) : ShareeModel :=
  r.1.2.

Definition trace_of {A} (r : A * ShareeModel * list Effect) : list Effect :=
  r.2.

(** ** The methods of [ShareeModel] *)

Section ShareeModel.

(** [tr] looks a source text up in the translation catalogues installed
    at run time; the catalogues are not part of the sources. *)
Variable tr : QString → QString → QString.

(** [Sharee::format()] is defined in [sharee.cpp]. *)
Variable format : Sharee → QString.

(** The roles of [ShareeModel::Roles] are declared in [shareemodel.h]. *)
Variable ShareeRole : Z.
Variable AutoCompleterStringMatchRole : Z.

(** *** QAbstractListModel methods *)

Definition rowCount (this : ShareeModel) (parent : QModelIndex) : Z :=
  if isValid parent || bool_decide (_accountState this = None)
  then 0%Z
  else size (_sharees this).

Definition data (this : ShareeModel) (index : QModelIndex) (role : Z)
  : Checked (QVariant * list Effect) :=
  if (row index <? 0)%Z || (row index >? size (_sharees this))%Z then
    Ok (Invalid, [])
  else
    match at_ (_sharees this) (row index) with
    | IndexOutOfRange => IndexOutOfRange
    | Ok None => Ok (Invalid, [])
    | Ok (Some sharee) =>
        if (role =? DisplayRole)%Z then
          Ok (VariantString (format sharee), [])
        else if (role =? AutoCompleterStringMatchRole)%Z then
          Ok (VariantString
                (displayName sharee +:+ " (" +:+ shareWith sharee +:+ ")"), [])
        else if (role =? ShareeRole)%Z then
          Ok (VariantSharee (Some sharee), [])
        else
          Ok (Invalid, [Log Warning "Got unknown role"])
    end.

(** *** QPROPERTY methods *)

Definition setAccountState (accountState : option AccountState) : Cmd unit :=
  this ← self;
  if bool_decide (accountState = _accountState this) then mret tt
  else
    assign (set_accountState accountState);;
    Q_EMIT accountStateChanged.

Definition setShareItemIsFolder (shareItemIsFolder : bool) : Cmd unit :=
  this ← self;
  if bool_decide (shareItemIsFolder = _shareItemIsFolder this) then mret tt
  else
    assign (set_shareItemIsFolder shareItemIsFolder);;
    Q_EMIT shareItemIsFolderChanged.

Definition setSearchString (searchString : QString) : Cmd unit :=
  this ← self;
  if bool_decide (searchString = _searchString this) then mret tt
  else
    assign (set_searchString searchString);;
    Q_EMIT searchStringChanged;;
    effect TimerStart.

Definition setLookupMode (lookupMode : LookupMode) : Cmd unit :=
  this ← self;
  if bool_decide (lookupMode = _lookupMode this) then mret tt
  else
    assign (set_lookupMode lookupMode);;
    Q_EMIT lookupModeChanged.

(** *** Internal data methods *)

(** [_accountState->account()], read through a pointer that may itself
    be null. *)
Definition sessionAccount (this : ShareeModel) : option Account :=
  accountState ← _accountState this; account accountState.

Definition fetch : Cmd unit :=
  this ← self;
  if bool_decide (_accountState this = None)
     || bool_decide (sessionAccount this = None)
     || isEmpty (_searchString this)
  then
    effect (Log Info "Not fetching sharees for searchString: ")
  else
    assign (set_fetchOngoing true);;
    Q_EMIT fetchOngoingChanged;;
    this ← self;
    let shareItemTypeString :=
      if _shareItemIsFolder this then "folder" else "file" in
    effect (GetSharees (sessionAccount this) (_searchString this)
              shareItemTypeString 1 50
              (if bool_decide (_lookupMode this = GlobalSearch)
               then true else false)).

(** The slot connected to [OcsJob::ocsError] by [fetch]. *)
Definition ocsErrorHandler (statusCode : Z) (message : QString) : Cmd unit :=
  assign (set_fetchOngoing false);;
  Q_EMIT fetchOngoingChanged;;
  Q_EMIT (displayErrorMessage statusCode message).

(** The pointer [parseSharee] returns owns a fresh object and is never
    null; the model returns the object, and the caller wraps it. *)
Definition parseSharee (data : QJsonObject) : Sharee :=
  let displayName := toString (value data "label") in
  let shareWith := toString (value (toObject (value data "value")) "shareWith") in
  let type := toInt (value (toObject (value data "value")) "shareType") in
  let additionalInfo :=
    toString (value (toObject (value data "value")) "shareWithAdditionalInfo") in
  let displayName :=
    if negb (isEmpty additionalInfo)
    then arg (tr "%1 (%2)" "sharee (shareWithAdditionalInfo)")
           displayName additionalInfo
    else displayName in
  mkSharee shareWith displayName type.

Definition shareeTypes : list string :=
  ["users"; "groups"; "emails"; "remotes"; "circles"; "rooms"].

(** The predicate handed to [std::find_if] over the blacklist. *)
Definition sameSharee (parsedSharee blacklistSharee : Sharee) : bool :=
  bool_decide (type parsedSharee = type blacklistSharee)
  && bool_decide (shareWith parsedSharee = shareWith blacklistSharee).

(** The body of the inner loop: one entry of a category. *)
Definition appendSharee (this : ShareeModel) (newSharees : list ShareePtr)
    (sharee : QJsonValue) : list ShareePtr :=
  let shareeJsonObject := toObject sharee in
  let parsedSharee := parseSharee shareeJsonObject in
  let shareeInBlacklistIt :=
    find (sameSharee parsedSharee) (_shareeBlacklist this) in
  if bool_decide (shareeInBlacklistIt ≠ None) then newSharees
  else newSharees ++ [Some parsedSharee].

(** The lambda [appendSharees]: both loops, threading [newSharees]. *)
Definition appendSharees (this : ShareeModel) (data : QJsonObject)
    (newSharees : list ShareePtr) : list ShareePtr :=
  foldl (λ newSharees shareeType,
           let category := toArray (value data shareeType) in
           foldl (appendSharee this) newSharees category)
        newSharees shareeTypes.

Definition shareesFetched (reply : QJsonDocument) : Cmd unit :=
  assign (set_fetchOngoing false);;
  Q_EMIT fetchOngoingChanged;;
  effect (Log Info "SearchString: ");;
  this ← self;
  let newSharees := [] in
  let replyDataObject :=
    toObject (value (toObject (value (object reply) "ocs")) "data") in
  let replyDataExactMatchObject := toObject (value replyDataObject "exact") in
  let newSharees := appendSharees this replyDataObject newSharees in
  let newSharees := appendSharees this replyDataExactMatchObject newSharees in
  effect BeginResetModel;;
  assign (set_sharees newSharees);;
  effect EndResetModel;;
  Q_EMIT shareesReady.

(** The two signals of the job [fetch] connects to, and their slots. *)
Inductive JobSignal : Type :=
  | shareeJobFinished (reply : QJsonDocument)
  | ocsError (statusCode : Z) (message : QString).

Definition jobSlot (s : JobSignal) : Cmd unit :=
  match s with
  | shareeJobFinished reply => shareesFetched reply
  | ocsError statusCode message => ocsErrorHandler statusCode message
  end.

End ShareeModel.

(** ** Vocabulary of the properties *)

(** The two segments of a response document. *)
Definition broadSegment (reply : QJsonDocument) : QJsonObject :=
  toObject (value (toObject (value (object reply) "ocs")) "data").

Definition exactSegment (reply : QJsonDocument) : QJsonObject :=
  toObject (value (broadSegment reply) "exact").

(** The candidates parsed from one category of a segment, in the order
    of its entries. *)
Definition categoryCandidates (tr : QString → QString → QString)
    (segment : QJsonObject) (category : string) : list Sharee :=
  (λ entry, parseSharee tr (toObject entry)) <$> toArray (value segment category).

(** The candidates of a segment, category after category. *)
Definition segmentCandidates (tr : QString → QString → QString)
    (segment : QJsonObject) : list Sharee :=
  categoryCandidates tr segment "users"
  ++ categoryCandidates tr segment "groups"
  ++ categoryCandidates tr segment "emails"
  ++ categoryCandidates tr segment "remotes"
  ++ categoryCandidates tr segment "circles"
  ++ categoryCandidates tr segment "rooms".

(** Some entry of the exclusion set has the type and the identifier of
    the candidate. *)
Definition isExcluded (exclusionSet : list Sharee) (candidate : Sharee) : Prop :=
  Exists (λ entry, type entry = type candidate
                   ∧ shareWith entry = shareWith candidate) exclusionSet.

#[global] Instance isExcluded_dec exclusionSet candidate :
  Decision (isExcluded exclusionSet candidate).
Proof. unfold isExcluded. apply _. Defined.

(** The list a completed fetch publishes. *)
Definition published (tr : QString → QString → QString)
    (reply : QJsonDocument) (this : ShareeModel) : list ShareePtr :=
  _sharees (state_of (shareesFetched tr reply this)).

(** The translator of a session without catalogues: the source text. *)
Definition untranslated (sourceText disambiguation : QString) : QString :=
  sourceText.

(** A translator whose catalogue renders the pattern of [parseSharee]
    with a dash; every other text is left as it is. *)
Definition dashed (sourceText disambiguation : QString) : QString :=
  if String.eqb sourceText "%1 (%2)" then "%1 - %2" else sourceText.

(** ** Sample data

    The response of the scenarios: one user entry, labelled Ann, in the
    broad segment and an empty exact segment. *)

Definition annEntry : QJsonValue :=
  JsonObject {[ "label" := JsonString "Ann";
                "value" := JsonObject {[ "shareWith" := JsonString "ann";
                                         "shareType" := JsonDouble 0 ]} ]}.

(** An entry that carries additional information. *)
Definition annMailEntry : QJsonValue :=
  JsonObject {[ "label" := JsonString "Ann";
                "value" := JsonObject
                  {[ "shareWith" := JsonString "ann";
                     "shareType" := JsonDouble 0;
                     "shareWithAdditionalInfo" := JsonString "ann@example.org" ]} ]}.

Definition annReply : QJsonDocument :=
  DocumentObject
    {[ "ocs" := JsonObject
         {[ "data" := JsonObject
              {[ "users" := JsonArray [annEntry];
                 "exact" := JsonObject ∅ ]} ]} ]}.

(** The same entry in both segments. *)
Definition annTwiceReply : QJsonDocument :=
  DocumentObject
    {[ "ocs" := JsonObject
         {[ "data" := JsonObject
              {[ "users" := JsonArray [annEntry];
                 "exact" := JsonObject {[ "users" := JsonArray [annEntry] ]} ]} ]} ]}.

Definition ann : Sharee := mkSharee "ann" "Ann" 0.

Definition session : AccountState := mkAccountState 1 (Some (AccountRef 1)).

(** A model with a session, the query [ann] and nothing published. *)
Definition idleModel : ShareeModel :=
  mkShareeModel (Some session) false "ann" false LocalSearch [] [].

(** The same model once [ann] is on the exclusion set. *)
Definition excludingModel : ShareeModel :=
  mkShareeModel (Some session) false "ann" false LocalSearch [] [ann].

(** A model without session that still holds a published list. *)
Definition detachedModel : ShareeModel :=
  mkShareeModel None false "ann" false LocalSearch [Some ann] [].

(** ** Further methods of [ShareeModel] *)

(** *** Property getters *)

Definition accountState (this : ShareeModel) : option AccountState :=
  _accountState this.

Definition shareItemIsFolder (this : ShareeModel) : bool :=
  _shareItemIsFolder this.

Definition searchString (this : ShareeModel) : QString :=
  _searchString this.

Definition fetchOngoing (this : ShareeModel) : bool :=
  _fetchOngoing this.

Definition lookupMode (this : ShareeModel) : LookupMode :=
  _lookupMode this.

(** *** Role names

    [roleNames] starts from the names of the base class, taken as they
    come, and writes the two roles of the model into the hash; a write
    to a key that is present replaces its name. *)
Definition roleNames (baseRoleNames : gmap Z string)
    (ShareeRole AutoCompleterStringMatchRole : Z) : gmap Z string :=
  let roles := baseRoleNames in
  let roles := <[ShareeRole := "sharee"]> roles in
  let roles :=
    <[AutoCompleterStringMatchRole := "autoCompleterStringMatch"]> roles in
  roles.

(** *** The typing timer

    [QTimer] as far as the model uses it: [start] starts the timer or,
    when it runs, restarts it; an active timer delivers [timeout], and a
    single-shot timer is inactive from then on. *)
Record QTimer : Type := mkTimer {
  isSingleShot : bool;
  interval : Z;
  isActive : bool
}.

Definition setSingleShot (singleShot : bool) (t : QTimer) : QTimer :=
  mkTimer singleShot (interval t) (isActive t).

Definition setInterval (msec : Z) (t : QTimer) : QTimer :=
  mkTimer (isSingleShot t) msec (isActive t).

Definition start (t : QTimer) : QTimer :=
  mkTimer (isSingleShot t) (interval t) true.

(** The timer once its [timeout] has been delivered. *)
Definition fired (t : QTimer) : QTimer :=
  mkTimer (isSingleShot t) (interval t) (negb (isSingleShot t)).

(** The model object together with its member [_userStoppedTypingTimer]. *)
Record Instance : Type := mkInstance {
  fields : ShareeModel;
  _userStoppedTypingTimer : QTimer
}.

(** The constructor: a single-shot timer of 500 ms, its [timeout]
    connected to [fetch].  The initial values of the other members are
    set in [shareemodel.h] and come in as [initial]. *)
Definition construct (initial : ShareeModel) : Instance :=
  mkInstance initial
    (setInterval 500 (setSingleShot true (mkTimer false 0 false))).

Definition timerEffect (t : QTimer) (e : Effect) : QTimer :=
  match e with
  | TimerStart => start t
  | _ => t
  end.

(** A slot run on the object: its [TimerStart] effects reach the timer. *)
Definition call (slot : Cmd unit) (o : Instance) : Instance * list Effect :=
  let '(_, this, trace) := slot (fields o) in
  (mkInstance this (foldl timerEffect (_userStoppedTypingTimer o) trace), trace).

(** Delivery of [QTimer::timeout] to the slot the constructor connected. *)
Definition timeout (o : Instance) : Instance * list Effect :=
  if isActive (_userStoppedTypingTimer o) then
    call fetch (mkInstance (fields o) (fired (_userStoppedTypingTimer o)))
  else (o, []).

(** What reaches the object from outside while the user types: edits of
    the search text and expiries of the timer. *)
Inductive Input : Type :=
  | Edit (text : QString)
  | Expire.

Definition deliver (i : Input) (o : Instance) : Instance * list Effect :=
  match i with
  | Edit text => call (setSearchString text) o
  | Expire => timeout o
  end.

Fixpoint run (inputs : list Input) (o : Instance) : Instance * list Effect :=
  match inputs with
  | [] => (o, [])
  | i :: rest =>
      let '(o1, t1) := deliver i o in
      let '(o2, t2) := run rest o1 in
      (o2, t1 ++ t2)
  end.

(** The requests of a trace, in order. *)
Definition isRequest (e : Effect) : bool :=
  match e with
  | GetSharees _ _ _ _ _ _ => true
  | _ => false
  end.

Definition requests (trace : list Effect) : list Effect :=
  List.filter isRequest trace.

(** The request [fetch] makes in a state. *)
Definition requestOf (this : ShareeModel) : Effect :=
  GetSharees (sessionAccount this) (_searchString this)
    (if _shareItemIsFolder this then "folder" else "file") 1 50
    (bool_decide (_lookupMode this = GlobalSearch)).

(** The raw entries of a segment that [appendSharees] visits: its six
    categories, in the order of [shareeTypes]. *)
Definition segmentEntries (segment : QJsonObject) : QJsonArray :=
  toArray (value segment "users")
  ++ toArray (value segment "groups")
  ++ toArray (value segment "emails")
  ++ toArray (value segment "remotes")
  ++ toArray (value segment "circles")
  ++ toArray (value segment "rooms").

(** The identity of a published entry: its type and its share target. *)
Definition identity (p : ShareePtr) : option (Z * QString) :=
  c ← p; Some (type c, shareWith c).

(** * Properties *)

(** ** The exclusion filter *)

Section Filter.

Variable tr : QString → QString → QString.

Lemma sameSharee_true (c e : Sharee) :
  sameSharee c e = true ↔ type e = type c ∧ shareWith e = shareWith c.
Proof.
  unfold sameSharee.
  rewrite andb_true_iff, !bool_decide_eq_true.
  intuition congruence.
Qed.

Lemma find_sameSharee (E : list Sharee) (c : Sharee) :
  find (sameSharee c) E ≠ None ↔ isExcluded E c.
Proof.
  unfold isExcluded. rewrite Exists_exists. split.
  - destruct (find (sameSharee c) E) as [e|] eqn:Hfind; [intros _|done].
    apply find_some in Hfind as [Hin Hsame].
    exists e. split; [by apply list_elem_of_In|].
    by apply sameSharee_true.
  - intros (e & Hin & Hsame) Hnone.
    apply list_elem_of_In in Hin.
    apply (find_none _ _ Hnone) in Hin.
    apply sameSharee_true in Hsame. congruence.
Qed.

(** One entry is appended exactly when its candidate is not excluded. *)
Lemma appendSharee_eq (this : ShareeModel) (acc : list ShareePtr)
    (entry : QJsonValue) :
  appendSharee tr this acc entry =
    acc ++ (Some <$> filter (λ c, ¬ isExcluded (_shareeBlacklist this) c)
                       [parseSharee tr (toObject entry)]).
Proof.
  unfold appendSharee. cbn zeta.
  rewrite filter_cons, filter_nil.
  pose proof (find_sameSharee (_shareeBlacklist this)
                (parseSharee tr (toObject entry))) as Hfind.
  case_bool_decide as Hit.
  - rewrite decide_False by tauto. by rewrite app_nil_r.
  - by rewrite decide_True by tauto.
Qed.

(** The inner loop over one category. *)
Lemma category_loop (this : ShareeModel) (entries : QJsonArray)
    (acc : list ShareePtr) :
  foldl (appendSharee tr this) acc entries =
    acc ++ (Some <$> filter (λ c, ¬ isExcluded (_shareeBlacklist this) c)
                       ((λ entry, parseSharee tr (toObject entry)) <$> entries)).
Proof.
  revert acc. induction entries as [|entry entries IH]; intros acc.
  - cbn. by rewrite app_nil_r.
  - cbn [foldl]. rewrite IH, appendSharee_eq, <- app_assoc, <- fmap_app.
    by rewrite <- filter_app.
Qed.

(** Both loops over one segment. *)
Lemma appendSharees_eq (this : ShareeModel) (segment : QJsonObject)
    (acc : list ShareePtr) :
  appendSharees tr this segment acc =
    acc ++ (Some <$> filter (λ c, ¬ isExcluded (_shareeBlacklist this) c)
                       (segmentCandidates tr segment)).
Proof.
  unfold appendSharees, shareeTypes, segmentCandidates, categoryCandidates.
  cbn [foldl]. rewrite !category_loop.
  rewrite !filter_app, !fmap_app, <- !app_assoc. done.
Qed.

(** [shareesFetched] run as a whole: the fields it writes and the trace
    it leaves. *)
Lemma shareesFetched_run (reply : QJsonDocument) (this : ShareeModel) :
  shareesFetched tr reply this =
    (tt,
     set_sharees
       (appendSharees tr (set_fetchOngoing false this) (exactSegment reply)
          (appendSharees tr (set_fetchOngoing false this) (broadSegment reply) []))
       (set_fetchOngoing false this),
     [Emit fetchOngoingChanged; Log Info "SearchString: ";
      BeginResetModel; EndResetModel; Emit shareesReady]).
Proof. reflexivity. Qed.

Lemma published_eq (reply : QJsonDocument) (this : ShareeModel) :
  published tr reply this =
    Some <$> (filter (λ c, ¬ isExcluded (_shareeBlacklist this) c)
                (segmentCandidates tr (broadSegment reply))
              ++ filter (λ c, ¬ isExcluded (_shareeBlacklist this) c)
                   (segmentCandidates tr (exactSegment reply))).
Proof.
  unfold published. rewrite shareesFetched_run.
  change (_sharees (state_of ?r)) with (_sharees r.1.2). cbn [fst snd set_sharees _sharees].
  rewrite !appendSharees_eq.
  change (_shareeBlacklist (set_fetchOngoing false this))
    with (_shareeBlacklist this).
  by rewrite app_nil_l, fmap_app.
Qed.

End Filter.

(** ** Order of the published list *)

Section Published.

Variable tr : QString → QString → QString.

Lemma category_in_segment (segment : QJsonObject) (category : string)
    (c : Sharee) :
  category ∈ shareeTypes →
  c ∈ categoryCandidates tr segment category →
  c ∈ segmentCandidates tr segment.
Proof.
  unfold shareeTypes, segmentCandidates. intros Hcat Hc.
  rewrite !elem_of_app.
  repeat (apply elem_of_cons in Hcat as [->|Hcat]; [tauto|]).
  by apply not_elem_of_nil in Hcat.
Qed.

Lemma entry_candidate (segment : QJsonObject) (category : string)
    (entry : QJsonValue) :
  entry ∈ toArray (value segment category) →
  parseSharee tr (toObject entry) ∈ categoryCandidates tr segment category.
Proof.
  intros Hin. unfold categoryCandidates.
  by apply (list_elem_of_fmap_2 (λ e, parseSharee tr (toObject e))).
Qed.

Lemma isExcluded_iff (E : list Sharee) (c : Sharee) :
  ¬ isExcluded E c ↔
  ∀ e, e ∈ E → ¬ (type e = type c ∧ shareWith e = shareWith c).
Proof.
  unfold isExcluded. rewrite Exists_exists. split.
  - intros Hnot e He Hsame. apply Hnot. by exists e.
  - intros Hall (e & He & Hsame). by apply (Hall e).
Qed.

(** C1 (amended).  For every response document and exclusion set, the
    published list is the candidates of the broad segment that match no
    entry of the exclusion set, category after category in the order
    users, groups, emails, remotes, circles, rooms, followed by those
    of the exact segment in the same order; nothing is re-sorted. *)
Theorem published_order (reply : QJsonDocument) (this : ShareeModel) :
  published tr reply this =
    Some <$> (filter (λ c, ¬ isExcluded (_shareeBlacklist this) c)
                (categoryCandidates tr (broadSegment reply) "users"
                 ++ categoryCandidates tr (broadSegment reply) "groups"
                 ++ categoryCandidates tr (broadSegment reply) "emails"
                 ++ categoryCandidates tr (broadSegment reply) "remotes"
                 ++ categoryCandidates tr (broadSegment reply) "circles"
                 ++ categoryCandidates tr (broadSegment reply) "rooms")
              ++ filter (λ c, ¬ isExcluded (_shareeBlacklist this) c)
                (categoryCandidates tr (exactSegment reply) "users"
                 ++ categoryCandidates tr (exactSegment reply) "groups"
                 ++ categoryCandidates tr (exactSegment reply) "emails"
                 ++ categoryCandidates tr (exactSegment reply) "remotes"
                 ++ categoryCandidates tr (exactSegment reply) "circles"
                 ++ categoryCandidates tr (exactSegment reply) "rooms")).
Proof. apply published_eq. Qed.

(** X21.  With an empty exclusion set every parsed candidate is
    published: the list is the candidates of the broad segment followed
    by those of the exact segment, nothing left out. *)
Corollary published_all (reply : QJsonDocument) (this : ShareeModel) :
  _shareeBlacklist this = [] →
  published tr reply this =
    Some <$> (segmentCandidates tr (broadSegment reply)
              ++ segmentCandidates tr (exactSegment reply)).
Proof.
  intros HE. rewrite published_eq, HE. f_equal.
  assert (Hall : ∀ l : list Sharee, filter (λ c, ¬ isExcluded [] c) l = l).
  { intros l. induction l as [|c l IH]; [done|].
    rewrite filter_cons, IH.
    rewrite decide_True; [done|].
    unfold isExcluded. rewrite Exists_nil. tauto. }
  by rewrite !Hall.
Qed.

(** C2.  A candidate parsed from the response is in the published list
    if and only if no entry of the exclusion set has both its type and
    its identifier. *)
Theorem published_iff_not_excluded (reply : QJsonDocument)
    (this : ShareeModel) (c : Sharee) :
  c ∈ segmentCandidates tr (broadSegment reply)
      ++ segmentCandidates tr (exactSegment reply) →
  Some c ∈ published tr reply this ↔
  ∀ e, e ∈ _shareeBlacklist this →
       ¬ (type e = type c ∧ shareWith e = shareWith c).
Proof.
  intros Hparsed. rewrite published_eq, <- isExcluded_iff.
  rewrite (list_elem_of_fmap_inj Some), <- filter_app, list_elem_of_filter.
  tauto.
Qed.

(** C8.  An entry that occurs both in a category of the broad segment
    and in a category of the exact segment, and is not excluded, is
    published twice: once for each segment. *)
Theorem published_duplicate (reply : QJsonDocument) (this : ShareeModel)
    (entry : QJsonValue) (broadCategory exactCategory : string) :
  broadCategory ∈ shareeTypes →
  exactCategory ∈ shareeTypes →
  entry ∈ toArray (value (broadSegment reply) broadCategory) →
  entry ∈ toArray (value (exactSegment reply) exactCategory) →
  ¬ isExcluded (_shareeBlacklist this) (parseSharee tr (toObject entry)) →
  ∃ l1 l2 l3,
    published tr reply this =
      l1 ++ Some (parseSharee tr (toObject entry))
         :: l2 ++ Some (parseSharee tr (toObject entry)) :: l3.
Proof.
  intros Hk1 Hk2 Hbroad Hexact Hkeep.
  set (c := parseSharee tr (toObject entry)) in *.
  set (keep := λ c, ¬ isExcluded (_shareeBlacklist this) c).
  assert (Hb : c ∈ filter keep (segmentCandidates tr (broadSegment reply))).
  { apply list_elem_of_filter. split; [done|].
    apply (category_in_segment _ broadCategory); [done|].
    by apply entry_candidate. }
  assert (He : c ∈ filter keep (segmentCandidates tr (exactSegment reply))).
  { apply list_elem_of_filter. split; [done|].
    apply (category_in_segment _ exactCategory); [done|].
    by apply entry_candidate. }
  apply list_elem_of_split in Hb as (a1 & a2 & Hb).
  apply list_elem_of_split in He as (b1 & b2 & He).
  exists (Some <$> a1), (Some <$> (a2 ++ b1)), (Some <$> b2).
  rewrite published_eq. fold keep. rewrite Hb, He.
  by rewrite !fmap_app, !fmap_cons, <- !app_assoc.
Qed.

End Published.

(** C1, as stated, fails once the exclusion set matches a candidate: the
    response holds Ann, the published list is empty. *)
Lemma published_order_counterexample :
  published untranslated annReply excludingModel ≠
    Some <$> (segmentCandidates untranslated (broadSegment annReply)
              ++ segmentCandidates untranslated (exactSegment annReply)).
Proof. vm_compute. discriminate. Qed.

Lemma published_iff_not_excluded_witness :
  Some ann ∈ published untranslated annReply idleModel ↔
  ∀ e, e ∈ _shareeBlacklist idleModel →
       ¬ (type e = type ann ∧ shareWith e = shareWith ann).
Proof.
  apply (published_iff_not_excluded untranslated annReply idleModel ann).
  vm_compute. apply list_elem_of_here.
Defined.

Lemma published_duplicate_witness :
  ∃ l1 l2 l3,
    published untranslated annTwiceReply idleModel =
      l1 ++ Some (parseSharee untranslated (toObject annEntry))
         :: l2 ++ Some (parseSharee untranslated (toObject annEntry)) :: l3.
Proof.
  apply (published_duplicate untranslated annTwiceReply idleModel annEntry
           "users" "users").
  - apply list_elem_of_here.
  - apply list_elem_of_here.
  - vm_compute. apply list_elem_of_here.
  - vm_compute. apply list_elem_of_here.
  - vm_compute. intros H. inversion H.
Defined.

Example published_scenario :
  published untranslated annReply idleModel = [Some ann].
Proof. reflexivity. Qed.

Example published_scenario_excluded :
  published untranslated annReply excludingModel = [].
Proof. reflexivity. Qed.

Example published_scenario_twice :
  published untranslated annTwiceReply idleModel = [Some ann; Some ann].
Proof. reflexivity. Qed.

(** ** Parsing one entry *)

Section Parsing.

Variable tr : QString → QString → QString.

Lemma isEmpty_true (s : QString) : isEmpty s = true ↔ s = EmptyString.
Proof. by destruct s. Qed.

Lemma isEmpty_false (s : QString) : isEmpty s = false ↔ s ≠ EmptyString.
Proof. by destruct s. Qed.

(** The pattern of [parseSharee], with both markers filled in. *)
Lemma arg_label_info (label info : QString) :
  arg "%1 (%2)" label info = label +:+ " (" +:+ info +:+ ")".
Proof. reflexivity. Qed.

(** C5 (amended).  When the translation of the pattern is the pattern
    itself, an entry whose additional-info string is present and
    non-empty gets the display label "label (additionalInfo)"; under
    every translation, an entry without such a string keeps its label
    unchanged. *)
Theorem parseSharee_displayName (data : QJsonObject) :
  let label := toString (value data "label") in
  let additionalInfo :=
    value (toObject (value data "value")) "shareWithAdditionalInfo" in
  (tr "%1 (%2)" "sharee (shareWithAdditionalInfo)" = "%1 (%2)" →
   ∀ info, additionalInfo = JsonString info → info ≠ EmptyString →
     displayName (parseSharee tr data) = label +:+ " (" +:+ info +:+ ")")
  ∧ ((∀ info, additionalInfo = JsonString info → info = EmptyString) →
     displayName (parseSharee tr data) = label).
Proof.
  intros label additionalInfo. unfold parseSharee. cbn [displayName].
  fold additionalInfo label. split.
  - intros Htr info -> Hinfo. rewrite Htr. cbn [toString].
    apply isEmpty_false in Hinfo. rewrite Hinfo. cbn [negb].
    apply arg_label_info.
  - intros Hinfo. destruct additionalInfo as [|b|d|info|a|o|]; try done.
    cbn [toString]. by rewrite (Hinfo info eq_refl).
Qed.

(** The fields of a candidate are the defaults of the conversions
    whenever the entry lacks them or holds them with another type. *)
Lemma toString_default (v : QJsonValue) :
  (∀ s, v ≠ JsonString s) → toString v = EmptyString.
Proof. intros Hv. destruct v; try done. by destruct (Hv s). Qed.

Lemma toInt_default (v : QJsonValue) :
  (∀ d, v ≠ JsonDouble d) → toInt v = 0%Z.
Proof. intros Hv. destruct v; try done. by destruct (Hv d). Qed.

Lemma value_missing (o : QJsonObject) (key : string) :
  o !! key = None → value o key = JsonUndefined.
Proof. unfold value. by intros ->. Qed.

End Parsing.

Lemma parseSharee_displayName_witness :
  displayName (parseSharee untranslated (toObject annMailEntry))
  = "Ann (ann@example.org)"
  ∧ displayName (parseSharee dashed (toObject annEntry)) = "Ann".
Proof.
  split.
  - apply (proj1 (parseSharee_displayName untranslated
                    (toObject annMailEntry)) eq_refl "ann@example.org").
    + reflexivity.
    + discriminate.
  - apply (proj2 (parseSharee_displayName dashed (toObject annEntry))).
    vm_compute. discriminate.
Defined.

(** C5, as stated, fails under a translation that rewrites the pattern:
    the entry has the label Ann and the additional information
    ann@example.org, and the display label is not
    "Ann (ann@example.org)". *)
Lemma parseSharee_displayName_counterexample :
  toString (value (toObject annMailEntry) "label") = "Ann"
  ∧ value (toObject (value (toObject annMailEntry) "value"))
      "shareWithAdditionalInfo" = JsonString "ann@example.org"
  ∧ displayName (parseSharee dashed (toObject annMailEntry))
    = "Ann - ann@example.org"
  ∧ displayName (parseSharee dashed (toObject annMailEntry))
    ≠ "Ann" +:+ " (" +:+ "ann@example.org" +:+ ")".
Proof.
  split; [reflexivity|]. split; [reflexivity|]. split; [reflexivity|].
  vm_compute. discriminate.
Qed.

Example parseSharee_with_info :
  parseSharee untranslated
    {[ "label" := JsonString "Ann";
       "value" := JsonObject
         {[ "shareWith" := JsonString "ann"; "shareType" := JsonDouble 4;
            "shareWithAdditionalInfo" := JsonString "ann@example.org" ]} ]}
  = mkSharee "ann" "Ann (ann@example.org)" 4.
Proof. reflexivity. Qed.

Example parseSharee_malformed :
  parseSharee untranslated
    {[ "label" := JsonDouble 3;
       "value" := JsonObject
         {[ "shareWith" := JsonBool true; "shareType" := JsonString "user";
            "shareWithAdditionalInfo" := JsonNull ]} ]}
  = mkSharee EmptyString EmptyString 0.
Proof. reflexivity. Qed.

Example parseSharee_not_an_object :
  parseSharee untranslated (toObject (JsonString "ann"))
  = mkSharee EmptyString EmptyString 0.
Proof. reflexivity. Qed.

(** ** Fetching *)

Lemma sessionAccount_None (this : ShareeModel) :
  sessionAccount this = None ↔
  _accountState this = None
  ∨ ∃ accountState, _accountState this = Some accountState
                    ∧ account accountState = None.
Proof.
  unfold sessionAccount. destruct (_accountState this) as [s|]; cbn.
  - split; [intros Hs; right; by exists s|].
    intros [Hs|(s' & Hs & Hacc)]; [done|]. by injection Hs as ->.
  - split; [by left|done].
Qed.

Lemma fetch_guard_true (this : ShareeModel) :
  bool_decide (_accountState this = None)
  || bool_decide (sessionAccount this = None)
  || isEmpty (_searchString this) = true ↔
  sessionAccount this = None ∨ _searchString this = EmptyString.
Proof.
  rewrite !orb_true_iff, !bool_decide_eq_true, isEmpty_true.
  rewrite sessionAccount_None. tauto.
Qed.

(** C6.  Without a session (no account state, or an account state
    without account) or with an empty search text, [fetch] changes no
    field of the model and leaves only a log line: no signal, no error,
    no request. *)
Theorem fetch_noop (this : ShareeModel) :
  _accountState this = None
  ∨ (∃ accountState, _accountState this = Some accountState
                     ∧ account accountState = None)
  ∨ _searchString this = EmptyString →
  state_of (fetch this) = this
  ∧ trace_of (fetch this) =
      [Log Info "Not fetching sharees for searchString: "].
Proof.
  intros Hpre.
  assert (Hguard : sessionAccount this = None
                   ∨ _searchString this = EmptyString).
  { rewrite sessionAccount_None. tauto. }
  apply fetch_guard_true in Hguard.
  unfold fetch, state_of, trace_of, mbind, Cmd_bind, self.
  by rewrite Hguard.
Qed.


Lemma fetch_keeps_sharees (this : ShareeModel) :
  _sharees (state_of (fetch this)) = _sharees this.
Proof.
  unfold fetch, state_of, mbind, Cmd_bind, self.
  by destruct (_ || _ || _).
Qed.

(** C3.  When the job reports a failure with a status code and a
    message, the fetching flag becomes false, the state-changed signal
    and then the error with that code and message are emitted, and the
    published list stays what it was, also with respect to the list
    before the fetch began. *)
Theorem ocsError_keeps_list (tr : QString → QString → QString)
    (this : ShareeModel) (statusCode : Z) (message : QString) :
  jobSlot tr (ocsError statusCode message) this =
    (tt, set_fetchOngoing false this,
     [Emit fetchOngoingChanged;
      Emit (displayErrorMessage statusCode message)])
  ∧ _fetchOngoing
      (state_of (jobSlot tr (ocsError statusCode message) this)) = false
  ∧ _sharees
      (state_of (jobSlot tr (ocsError statusCode message) this))
    = _sharees this
  ∧ _sharees
      (state_of (jobSlot tr (ocsError statusCode message)
                   (state_of (fetch this))))
    = _sharees this.
Proof.
  repeat split. apply fetch_keeps_sharees.
Qed.

Lemma fetch_noop_witness :
  state_of (fetch detachedModel) = detachedModel
  ∧ trace_of (fetch detachedModel) =
      [Log Info "Not fetching sharees for searchString: "].
Proof.
  apply (fetch_noop detachedModel). left. reflexivity.
Defined.


Example fetch_empty_text :
  fetch (set_searchString EmptyString idleModel) =
    (tt, set_searchString EmptyString idleModel,
     [Log Info "Not fetching sharees for searchString: "]).
Proof. reflexivity. Qed.

Example fetch_then_403 :
  jobSlot untranslated (ocsError 403 "Forbidden")
    (state_of (fetch (set_sharees [Some ann] idleModel))) =
    (tt, set_sharees [Some ann] idleModel,
     [Emit fetchOngoingChanged; Emit (displayErrorMessage 403 "Forbidden")]).
Proof. reflexivity. Qed.

(** ** The list model interface *)

Section ListModel.

Variable format : Sharee → QString.
Variable ShareeRole : Z.
Variable AutoCompleterStringMatchRole : Z.

(** C10.  Without an account state, or for a valid parent index, the
    row count is 0 whatever the stored list holds. *)
Theorem rowCount_hidden (this : ShareeModel) (parent : QModelIndex) :
  _accountState this = None ∨ isValid parent = true →
  rowCount this parent = 0%Z.
Proof.
  intros [Hnone|Hvalid]; unfold rowCount.
  - rewrite (bool_decide_eq_true_2 _ Hnone). by rewrite orb_true_r.
  - by rewrite Hvalid.
Qed.

Lemma rowCount_shown (this : ShareeModel) (parent : QModelIndex) :
  _accountState this ≠ None → isValid parent = false →
  rowCount this parent = size (_sharees this).
Proof.
  intros Hsome Hinvalid. unfold rowCount.
  by rewrite Hinvalid, (bool_decide_eq_false_2 _ Hsome).
Qed.

(** Rows below 0 and rows above the size get the empty variant. *)
Lemma data_outside (this : ShareeModel) (index : QModelIndex) (role : Z) :
  (row index < 0 ∨ size (_sharees this) < row index)%Z →
  data format ShareeRole AutoCompleterStringMatchRole this index role
  = Ok (Invalid, []).
Proof.
  intros Hrow. unfold data.
  destruct (Z.ltb_spec (row index) 0); [done|].
  destruct (Z.gtb_spec (row index) (size (_sharees this))); [done|lia].
Qed.

(** C4 (the code at the failing input).  The row equal to the size of
    the list passes the guard of [data] and reaches [QVector::at], which
    is out of range there: no empty variant is returned. *)
Theorem data_row_at_size (this : ShareeModel) (col : Z) (hm : bool)
    (role : Z) :
  data format ShareeRole AutoCompleterStringMatchRole this
    (mkIndex (size (_sharees this)) col hm) role
  = IndexOutOfRange.
Proof.
  unfold data, at_. cbn [row].
  assert (0 <= size (_sharees this))%Z by (unfold size; lia).
  destruct (Z.ltb_spec (size (_sharees this)) 0); [lia|].
  destruct (Z.gtb_spec (size (_sharees this)) (size (_sharees this))); [lia|].
  cbn [orb].
  destruct (Z.leb_spec 0 (size (_sharees this))); [|lia].
  by rewrite Z.ltb_irrefl.
Qed.

(** Rows inside the list read the element. *)
Lemma data_inside (this : ShareeModel) (index : QModelIndex) (i : nat)
    (sharee : Sharee) :
  row index = Z.of_nat i →
  _sharees this !! i = Some (Some sharee) →
  data format ShareeRole AutoCompleterStringMatchRole this index DisplayRole
  = Ok (VariantString (format sharee), []).
Proof.
  intros Hrow Hi. unfold data, at_. rewrite Hrow.
  pose proof (lookup_lt_Some _ _ _ Hi) as Hlt.
  destruct (Z.ltb_spec (Z.of_nat i) 0); [lia|].
  destruct (Z.gtb_spec (Z.of_nat i) (size (_sharees this)));
    [unfold size in *; lia|].
  cbn [orb].
  destruct (Z.leb_spec 0 (Z.of_nat i)); [|lia].
  destruct (Z.ltb_spec (Z.of_nat i) (size (_sharees this)));
    [|unfold size in *; lia].
  cbn [andb]. by rewrite Nat2Z.id, Hi.
Qed.

End ListModel.

Lemma rowCount_hidden_witness :
  rowCount detachedModel (mkIndex (-1) (-1) false) = 0%Z
  ∧ _sharees detachedModel = [Some ann].
Proof.
  split.
  - apply (rowCount_hidden detachedModel (mkIndex (-1) (-1) false)).
    left. reflexivity.
  - reflexivity.
Defined.

Example data_empty_list_row_0 :
  data displayName 257 258 idleModel (mkIndex 0 0 true) DisplayRole
  = IndexOutOfRange.
Proof. reflexivity. Qed.

Example data_one_past_the_end :
  data displayName 257 258 detachedModel (mkIndex 1 0 true) DisplayRole
  = IndexOutOfRange.
Proof. reflexivity. Qed.

Example data_two_past_the_end :
  data displayName 257 258 detachedModel (mkIndex 2 0 true) DisplayRole
  = Ok (Invalid, []).
Proof. reflexivity. Qed.

Example data_match_string :
  data displayName 257 258 detachedModel (mkIndex 0 0 true) 258
  = Ok (VariantString "Ann (ann)", []).
Proof. reflexivity. Qed.

(** ** The Qt conversions on small inputs *)

Example arg_one_pass : arg "%1 (%2)" "%2" "x" = "%2 (x)".
Proof. reflexivity. Qed.

Example arg_numbering : arg "%L7-%12-%3" "a" "b" = "b-%12-a".
Proof. reflexivity. Qed.

Example toInt_whole : toInt (JsonDouble (8 # 2)) = 4%Z.
Proof. reflexivity. Qed.

Example toInt_fraction : toInt (JsonDouble (1 # 2)) = 0%Z.
Proof. reflexivity. Qed.

Example toInt_too_large : toInt (JsonDouble (inject_Z (2 ^ 31))) = 0%Z.
Proof. reflexivity. Qed.

(** * Further properties *)

(** ** Commands in sequence *)

Lemma bind_state {A B} (c : Cmd A) (f : A → Cmd B) (this : ShareeModel) :
  state_of ((c ≫= f) this) = state_of (f (c this).1.1 (state_of (c this))).
Proof.
  unfold mbind, Cmd_bind, state_of.
  destruct (c this) as [[a s1] t1]. cbn.
  by destruct (f a s1) as [[b s2] t2].
Qed.

Lemma bind_trace {A B} (c : Cmd A) (f : A → Cmd B) (this : ShareeModel) :
  trace_of ((c ≫= f) this) =
    trace_of (c this) ++ trace_of (f (c this).1.1 (state_of (c this))).
Proof.
  unfold mbind, Cmd_bind, state_of, trace_of.
  destruct (c this) as [[a s1] t1]. cbn.
  by destruct (f a s1) as [[b s2] t2].
Qed.

Lemma requests_app (t1 t2 : list Effect) :
  requests (t1 ++ t2) = requests t1 ++ requests t2.
Proof. apply List.filter_app. Qed.

(** ** The property setters *)

Lemma setSearchString_run (text : QString) (this : ShareeModel) :
  setSearchString text this =
    (tt, set_searchString text this,
     if bool_decide (text = _searchString this) then []
     else [Emit searchStringChanged; TimerStart]).
Proof.
  unfold setSearchString, mbind, Cmd_bind, self.
  case_bool_decide as Hsame; [|done].
  subst text. by destruct this.
Qed.

Lemma setShareItemIsFolder_run (folder : bool) (this : ShareeModel) :
  setShareItemIsFolder folder this =
    (tt, set_shareItemIsFolder folder this,
     if bool_decide (folder = _shareItemIsFolder this) then []
     else [Emit shareItemIsFolderChanged]).
Proof.
  unfold setShareItemIsFolder, mbind, Cmd_bind, self.
  case_bool_decide as Hsame; [|done].
  subst folder. by destruct this.
Qed.

Lemma setLookupMode_run (mode : LookupMode) (this : ShareeModel) :
  setLookupMode mode this =
    (tt, set_lookupMode mode this,
     if bool_decide (mode = _lookupMode this) then []
     else [Emit lookupModeChanged]).
Proof.
  unfold setLookupMode, mbind, Cmd_bind, self.
  case_bool_decide as Hsame; [|done].
  subst mode. by destruct this.
Qed.

Lemma setAccountState_run (state : option AccountState) (this : ShareeModel) :
  setAccountState state this =
    (tt, set_accountState state this,
     if bool_decide (state = _accountState this) then []
     else [Emit accountStateChanged]).
Proof.
  unfold setAccountState, mbind, Cmd_bind, self.
  case_bool_decide as Hsame; [|done].
  subst state. by destruct this.
Qed.

(** X1.  After [setSearchString text] the getter returns [text] and no
    other member has changed, whatever the text was before; the
    changed-signal is emitted and the typing timer restarted exactly
    when the text differs from the stored one. *)
Theorem setSearchString_post (text : QString) (this : ShareeModel) :
  searchString (state_of (setSearchString text this)) = text
  ∧ state_of (setSearchString text this) = set_searchString text this
  ∧ (TimerStart ∈ trace_of (setSearchString text this)
     ↔ text ≠ _searchString this)
  ∧ (Emit searchStringChanged ∈ trace_of (setSearchString text this)
     ↔ text ≠ _searchString this)
  ∧ (trace_of (setSearchString text this) = []
     ↔ text = _searchString this).
Proof.
  rewrite setSearchString_run. unfold state_of, trace_of, searchString.
  cbn [fst snd set_searchString _searchString].
  split; [done|]. split; [done|].
  destruct (decide (text = _searchString this)) as [Hsame|Hnew].
  - rewrite (bool_decide_eq_true_2 _ Hsame), !elem_of_nil. tauto.
  - rewrite (bool_decide_eq_false_2 _ Hnew), !elem_of_cons.
    split; [tauto|]. split; [tauto|]. split; [done|tauto].
Qed.

(** X2.  The setters of the account state, of the folder flag and of the
    lookup mode store their argument, leave every other member alone,
    and emit their changed-signal once when the value differs and not at
    all when it is the stored one. *)
Theorem setters_post (this : ShareeModel) (state : option AccountState)
    (folder : bool) (mode : LookupMode) :
  (accountState (state_of (setAccountState state this)) = state
   ∧ state_of (setAccountState state this) = set_accountState state this
   ∧ trace_of (setAccountState state this) =
       if bool_decide (state = _accountState this) then []
       else [Emit accountStateChanged])
  ∧ (shareItemIsFolder (state_of (setShareItemIsFolder folder this)) = folder
     ∧ state_of (setShareItemIsFolder folder this)
       = set_shareItemIsFolder folder this
     ∧ trace_of (setShareItemIsFolder folder this) =
         if bool_decide (folder = _shareItemIsFolder this) then []
         else [Emit shareItemIsFolderChanged])
  ∧ (lookupMode (state_of (setLookupMode mode this)) = mode
     ∧ state_of (setLookupMode mode this) = set_lookupMode mode this
     ∧ trace_of (setLookupMode mode this) =
         if bool_decide (mode = _lookupMode this) then []
         else [Emit lookupModeChanged]).
Proof.
  rewrite setAccountState_run, setShareItemIsFolder_run, setLookupMode_run.
  by repeat split.
Qed.

(** X3.  Every setter is idempotent: a second call with the same
    argument changes nothing, emits nothing and does not restart the
    timer. *)
Theorem setters_idempotent (this : ShareeModel) (text : QString)
    (state : option AccountState) (folder : bool) (mode : LookupMode) :
  setSearchString text (state_of (setSearchString text this))
    = (tt, state_of (setSearchString text this), [])
  ∧ setAccountState state (state_of (setAccountState state this))
    = (tt, state_of (setAccountState state this), [])
  ∧ setShareItemIsFolder folder (state_of (setShareItemIsFolder folder this))
    = (tt, state_of (setShareItemIsFolder folder this), [])
  ∧ setLookupMode mode (state_of (setLookupMode mode this))
    = (tt, state_of (setLookupMode mode this), []).
Proof.
  rewrite !setSearchString_run, !setAccountState_run,
    !setShareItemIsFolder_run, !setLookupMode_run.
  unfold state_of. cbn [fst snd].
  repeat split; f_equal; try (by rewrite bool_decide_eq_true_2).
Qed.

(** ** Reading rows *)

Section Rows.

Variable format : Sharee → QString.
Variable ShareeRole : Z.
Variable AutoCompleterStringMatchRole : Z.

Lemma at_inside {A} (v : list A) (i : Z) :
  (0 <= i < size v)%Z → ∃ x, v !! Z.to_nat i = Some x ∧ at_ v i = Ok x.
Proof.
  intros [Hlo Hhi]. unfold at_, size in *.
  destruct (lookup_lt_is_Some_2 v (Z.to_nat i)) as [x Hx]; [lia|].
  exists x. split; [done|].
  destruct (Z.leb_spec 0 i); [|lia].
  destruct (Z.ltb_spec i (Z.of_nat (length v))); [|lia].
  cbn [andb]. by rewrite Hx.
Qed.

Lemma data_guard_inside (this : ShareeModel) (index : QModelIndex) :
  (0 <= row index < size (_sharees this))%Z →
  (row index <? 0)%Z || (row index >? size (_sharees this))%Z = false.
Proof.
  intros [Hlo Hhi].
  destruct (Z.ltb_spec (row index) 0); [lia|].
  destruct (Z.gtb_spec (row index) (size (_sharees this))); [lia|done].
Qed.

(** Inside the list [data] answers with a variant. *)
Lemma data_inside_ok (this : ShareeModel) (index : QModelIndex) (role : Z) :
  (0 <= row index < size (_sharees this))%Z →
  ∃ answer,
    data format ShareeRole AutoCompleterStringMatchRole this index role
    = Ok answer.
Proof.
  intros Hrow. unfold data. rewrite (data_guard_inside _ _ Hrow).
  destruct (at_inside _ _ Hrow) as (p & _ & ->).
  destruct p as [sharee|]; [|by eexists].
  repeat (case_match; [by eexists|]). by eexists.
Qed.

(** X4.  [data] runs into the out-of-range access for one row only, the
    row equal to the size of the list: every other row, negative, inside
    the list or further out, is answered with a variant. *)
Theorem data_out_of_range_iff (this : ShareeModel) (index : QModelIndex)
    (role : Z) :
  data format ShareeRole AutoCompleterStringMatchRole this index role
  = IndexOutOfRange
  ↔ row index = size (_sharees this).
Proof.
  split.
  - intros Hfail.
    destruct (Z.lt_trichotomy (row index) (size (_sharees this)))
      as [Hlt|[Heq|Hgt]]; [|done|].
    + destruct (Z.lt_ge_cases (row index) 0) as [Hneg|Hpos].
      * rewrite data_outside in Hfail by lia. done.
      * destruct (data_inside_ok this index role) as [answer Hok]; [lia|].
        congruence.
    + rewrite data_outside in Hfail by lia. done.
  - intros Hrow. destruct index as [r c hm]. cbn in Hrow. subst r.
    unfold data, at_. cbn [row].
    assert (0 <= size (_sharees this))%Z by (unfold size; lia).
    destruct (Z.ltb_spec (size (_sharees this)) 0); [lia|].
    destruct (Z.gtb_spec (size (_sharees this)) (size (_sharees this)));
      [lia|].
    cbn [orb]. destruct (Z.leb_spec 0 (size (_sharees this))); [|lia].
    by rewrite Z.ltb_irrefl.
Qed.

(** X5.  For a row that holds a sharee, and roles that are pairwise
    distinct, [data] gives the formatted sharee for the display role,
    the display name followed by the share target in parentheses for
    the match role, the sharee itself for the sharee role, and for any
    other role the empty variant with one warning. *)
Theorem data_by_role (this : ShareeModel) (index : QModelIndex)
    (sharee : Sharee) :
  (0 <= row index)%Z →
  _sharees this !! Z.to_nat (row index) = Some (Some sharee) →
  AutoCompleterStringMatchRole ≠ DisplayRole →
  ShareeRole ≠ DisplayRole →
  ShareeRole ≠ AutoCompleterStringMatchRole →
  data format ShareeRole AutoCompleterStringMatchRole this index DisplayRole
  = Ok (VariantString (format sharee), [])
  ∧ data format ShareeRole AutoCompleterStringMatchRole this index
      AutoCompleterStringMatchRole
    = Ok (VariantString
            (displayName sharee +:+ " (" +:+ shareWith sharee +:+ ")"), [])
  ∧ data format ShareeRole AutoCompleterStringMatchRole this index ShareeRole
    = Ok (VariantSharee (Some sharee), [])
  ∧ ∀ role, role ≠ DisplayRole → role ≠ AutoCompleterStringMatchRole →
            role ≠ ShareeRole →
      data format ShareeRole AutoCompleterStringMatchRole this index role
      = Ok (Invalid, [Log Warning "Got unknown role"]).
Proof.
  intros Hlo Hrow Hmatch Hsharee Hdistinct.
  assert (Hin : (0 <= row index < size (_sharees this))%Z).
  { apply lookup_lt_Some in Hrow. unfold size. lia. }
  destruct (at_inside _ _ Hin) as (p & Hp & Hat).
  assert (p = Some sharee) as -> by congruence.
  unfold data. rewrite (data_guard_inside _ _ Hin), Hat.
  split; [|split; [|split]].
  - by rewrite Z.eqb_refl.
  - rewrite (proj2 (Z.eqb_neq _ _) Hmatch). by rewrite Z.eqb_refl.
  - rewrite (proj2 (Z.eqb_neq _ _) Hsharee),
      (proj2 (Z.eqb_neq _ _) Hdistinct). by rewrite Z.eqb_refl.
  - intros role H1 H2 H3.
    by rewrite (proj2 (Z.eqb_neq _ _) H1), (proj2 (Z.eqb_neq _ _) H2),
      (proj2 (Z.eqb_neq _ _) H3).
Qed.

(** X6.  A row that holds a null pointer is answered with the empty
    variant for every role, without a warning. *)
Theorem data_null_sharee (this : ShareeModel) (index : QModelIndex)
    (role : Z) :
  (0 <= row index)%Z →
  _sharees this !! Z.to_nat (row index) = Some None →
  data format ShareeRole AutoCompleterStringMatchRole this index role
  = Ok (Invalid, []).
Proof.
  intros Hlo Hrow.
  assert (Hin : (0 <= row index < size (_sharees this))%Z).
  { apply lookup_lt_Some in Hrow. unfold size. lia. }
  destruct (at_inside _ _ Hin) as (p & Hp & Hat).
  assert (p = None) as -> by congruence.
  unfold data. by rewrite (data_guard_inside _ _ Hin), Hat.
Qed.

(** X7.  Every row below the reported row count can be read: [data]
    answers it with a variant and never leaves the list. *)
Theorem data_below_rowCount (this : ShareeModel) (parent index : QModelIndex)
    (role : Z) :
  (0 <= row index < rowCount this parent)%Z →
  ∃ answer,
    data format ShareeRole AutoCompleterStringMatchRole this index role
    = Ok answer.
Proof.
  intros [Hlo Hhi]. apply data_inside_ok. split; [done|].
  unfold rowCount in Hhi. destruct (_ || _); [lia|done].
Qed.

End Rows.

(** ** Role names *)

(** X8.  [roleNames] names the match role [autoCompleterStringMatch],
    names the sharee role [sharee] when the two roles differ, and keeps
    the name the base class gives to every other role. *)
Theorem roleNames_lookup (baseRoleNames : gmap Z string)
    (ShareeRole AutoCompleterStringMatchRole : Z) :
  roleNames baseRoleNames ShareeRole AutoCompleterStringMatchRole
    !! AutoCompleterStringMatchRole = Some "autoCompleterStringMatch"
  ∧ (ShareeRole ≠ AutoCompleterStringMatchRole →
     roleNames baseRoleNames ShareeRole AutoCompleterStringMatchRole
       !! ShareeRole = Some "sharee")
  ∧ (∀ role, role ≠ ShareeRole → role ≠ AutoCompleterStringMatchRole →
     roleNames baseRoleNames ShareeRole AutoCompleterStringMatchRole !! role
     = baseRoleNames !! role).
Proof.
  unfold roleNames. split; [apply lookup_insert_eq|]. split.
  - intros Hne. rewrite lookup_insert_ne by done. apply lookup_insert_eq.
  - intros role H1 H2. by rewrite !lookup_insert_ne.
Qed.

Lemma data_by_role_witness :
  data displayName 257 258 detachedModel (mkIndex 0 0 true) DisplayRole
  = Ok (VariantString "Ann", [])
  ∧ data displayName 257 258 detachedModel (mkIndex 0 0 true) 258
    = Ok (VariantString "Ann (ann)", [])
  ∧ data displayName 257 258 detachedModel (mkIndex 0 0 true) 257
    = Ok (VariantSharee (Some ann), []).
Proof.
  pose proof (data_by_role displayName 257 258 detachedModel
                (mkIndex 0 0 true) ann) as H.
  destruct H as (Hdisplay & Hmatch & Hsharee & _);
    [cbn; lia | reflexivity | discriminate | discriminate | discriminate |].
  by repeat split.
Defined.

Lemma data_null_sharee_witness :
  data displayName 257 258 (set_sharees [None] idleModel)
    (mkIndex 0 0 true) 257
  = Ok (Invalid, []).
Proof.
  apply (data_null_sharee displayName 257 258 (set_sharees [None] idleModel)
           (mkIndex 0 0 true) 257).
  - cbn. lia.
  - reflexivity.
Defined.

Lemma data_below_rowCount_witness :
  ∃ answer,
    data displayName 257 258 (set_sharees [Some ann] idleModel)
      (mkIndex 0 0 true) 257
    = Ok answer.
Proof.
  apply (data_below_rowCount displayName 257 258
           (set_sharees [Some ann] idleModel) (mkIndex (-1) (-1) false)).
  vm_compute. split; [discriminate|reflexivity].
Defined.

Lemma roleNames_lookup_witness :
  roleNames {[ 0%Z := "display" ]} 257 258 !! 257%Z = Some "sharee"
  ∧ roleNames {[ 0%Z := "display" ]} 257 258 !! 0%Z = Some "display".
Proof.
  pose proof (roleNames_lookup {[ 0%Z := "display" ]} 257 258)
    as (_ & Hsharee & Hbase).
  split.
  - apply Hsharee. discriminate.
  - rewrite Hbase; [reflexivity | discriminate | discriminate].
Defined.

(** ** What a reply publishes *)

Section Replies.

Variable tr : QString → QString → QString.

Lemma segmentCandidates_entries (segment : QJsonObject) :
  segmentCandidates tr segment =
    (λ entry, parseSharee tr (toObject entry)) <$> segmentEntries segment.
Proof.
  unfold segmentCandidates, categoryCandidates, segmentEntries.
  by rewrite !fmap_app.
Qed.

Lemma published_entries (reply : QJsonDocument) (this : ShareeModel) :
  published tr reply this =
    Some <$> filter (λ c, ¬ isExcluded (_shareeBlacklist this) c)
               ((λ entry, parseSharee tr (toObject entry))
                  <$> (segmentEntries (broadSegment reply)
                       ++ segmentEntries (exactSegment reply))).
Proof.
  by rewrite published_eq, !segmentCandidates_entries, <- filter_app,
    <- fmap_app.
Qed.

(** X9.  Nothing but the response gets into the published list: every
    element is a non-null sharee, parsed from an entry of one of the
    six categories of the broad or of the exact segment, and matched by
    no entry of the exclusion set. *)
Theorem published_sound (reply : QJsonDocument) (this : ShareeModel)
    (p : ShareePtr) :
  p ∈ published tr reply this →
  ∃ entry,
    entry ∈ segmentEntries (broadSegment reply)
            ++ segmentEntries (exactSegment reply)
    ∧ p = Some (parseSharee tr (toObject entry))
    ∧ ¬ isExcluded (_shareeBlacklist this) (parseSharee tr (toObject entry)).
Proof.
  rewrite published_entries. intros Hp.
  apply list_elem_of_fmap in Hp as (c & -> & Hc).
  apply list_elem_of_filter in Hc as [Hkeep Hc].
  apply list_elem_of_fmap in Hc as (entry & -> & Hentry).
  by exists entry.
Qed.

Lemma shareesFetched_twice (first second : QJsonDocument)
    (this : ShareeModel) :
  state_of (shareesFetched tr second (state_of (shareesFetched tr first this)))
  = state_of (shareesFetched tr second this).
Proof.
  rewrite !shareesFetched_run. unfold state_of. cbn [fst snd].
  rewrite !appendSharees_eq. by destruct this.
Qed.

(** X10.  A reply replaces the list wholesale: whatever list was stored
    before, and whatever reply was handled before, the list after a
    reply is the candidates parsed from the entries of that reply that
    the exclusion set does not match, and the state after two replies
    in a row is the state after the second alone. *)
Theorem shareesFetched_last_wins (first second : QJsonDocument)
    (this : ShareeModel) (previous : list ShareePtr) :
  _sharees (state_of (shareesFetched tr second (set_sharees previous this)))
  = Some <$> filter (λ c, ¬ isExcluded (_shareeBlacklist this) c)
               ((λ entry, parseSharee tr (toObject entry))
                  <$> (segmentEntries (broadSegment second)
                       ++ segmentEntries (exactSegment second)))
  ∧ _sharees
      (state_of (shareesFetched tr second
                   (state_of (shareesFetched tr first this))))
    = Some <$> filter (λ c, ¬ isExcluded (_shareeBlacklist this) c)
                 ((λ entry, parseSharee tr (toObject entry))
                    <$> (segmentEntries (broadSegment second)
                         ++ segmentEntries (exactSegment second)))
  ∧ state_of (shareesFetched tr second
                (state_of (shareesFetched tr first this)))
    = state_of (shareesFetched tr second this).
Proof.
  split; [|split].
  - change (_sharees (state_of (shareesFetched tr second
                                  (set_sharees previous this))))
      with (published tr second (set_sharees previous this)).
    by rewrite published_entries.
  - rewrite shareesFetched_twice.
    change (_sharees (state_of (shareesFetched tr second this)))
      with (published tr second this).
    by rewrite published_entries.
  - apply shareesFetched_twice.
Qed.

(** The entries are visited category by category, in the order of
    [shareeTypes]. *)
Lemma segmentEntries_shareeTypes (segment : QJsonObject) :
  segmentEntries segment =
    concat ((λ category, toArray (value segment category)) <$> shareeTypes).
Proof.
  unfold segmentEntries, shareeTypes. cbn [fmap list_fmap concat].
  by rewrite app_nil_r.
Qed.

Lemma segmentEntries_empty : segmentEntries ∅ = [].
Proof. reflexivity. Qed.

Lemma shareesFetched_no_data_run (reply : QJsonDocument) (this : ShareeModel) :
  (∀ o, value (toObject (value (object reply) "ocs")) "data" ≠ JsonObject o) →
  shareesFetched tr reply this =
    (tt, set_sharees [] (set_fetchOngoing false this),
     [Emit fetchOngoingChanged; Log Info "SearchString: ";
      BeginResetModel; EndResetModel; Emit shareesReady]).
Proof.
  intros Hdata.
  assert (Hbroad : broadSegment reply = ∅).
  { unfold broadSegment.
    destruct (value (toObject (value (object reply) "ocs")) "data");
      try done. by destruct (Hdata o). }
  assert (Hexact : exactSegment reply = ∅).
  { unfold exactSegment. by rewrite Hbroad. }
  rewrite shareesFetched_run, !appendSharees_eq.
  by rewrite !segmentCandidates_entries, Hbroad, Hexact, segmentEntries_empty.
Qed.

(** X11.  A reply without an object at [ocs.data] (a null or array
    document, a missing key, a value of another type) is no error: it
    publishes the empty list, so the rows shown before are gone, and
    the fetching flag is false afterwards. *)
Theorem shareesFetched_no_data (reply : QJsonDocument) (this : ShareeModel) :
  (∀ o, value (toObject (value (object reply) "ocs")) "data" ≠ JsonObject o) →
  shareesFetched tr reply this =
    (tt, set_sharees [] (set_fetchOngoing false this),
     [Emit fetchOngoingChanged; Log Info "SearchString: ";
      BeginResetModel; EndResetModel; Emit shareesReady])
  ∧ _sharees (state_of (shareesFetched tr reply this)) = []
  ∧ _fetchOngoing (state_of (shareesFetched tr reply this)) = false.
Proof.
  intros Hdata. rewrite (shareesFetched_no_data_run reply this Hdata).
  by split.
Qed.

Lemma isExcluded_mono (E E' : list Sharee) (c : Sharee) :
  E ⊆ E' → isExcluded E c → isExcluded E' c.
Proof.
  unfold isExcluded. rewrite !Exists_exists.
  intros Hsub (e & He & Hsame). exists e. split; [by apply Hsub|done].
Qed.

Lemma filter_stronger {A} (P P' : A → Prop) `{!∀ x, Decision (P x)}
    `{!∀ x, Decision (P' x)} (l : list A) :
  (∀ x, P' x → P x) → filter P' l `sublist_of` filter P l.
Proof.
  intros Himpl. induction l as [|x l IH]; [done|].
  rewrite !filter_cons.
  destruct (decide (P' x)) as [HP'|HP'].
  - rewrite decide_True by auto. by apply sublist_skip.
  - destruct (decide (P x)); [by apply sublist_cons|done].
Qed.

(** X12.  A larger exclusion set only removes entries: with the same
    reply, the list published under the larger set is a sublist, in the
    same order, of the list published under the smaller one. *)
Theorem published_antitone (reply : QJsonDocument) (this this' : ShareeModel) :
  _shareeBlacklist this ⊆ _shareeBlacklist this' →
  published tr reply this' `sublist_of` published tr reply this.
Proof.
  intros Hsub. rewrite !published_entries.
  apply fmap_sublist, filter_stronger.
  intros c Hkeep Hex. apply Hkeep. by apply (isExcluded_mono _ _ _ Hsub).
Qed.

End Replies.

Lemma identity_filter (tr tr' : QString → QString → QString)
    (E : list Sharee) (entries : QJsonArray) :
  identity <$> (Some <$> filter (λ c, ¬ isExcluded E c)
                  ((λ entry, parseSharee tr (toObject entry)) <$> entries))
  = identity <$> (Some <$> filter (λ c, ¬ isExcluded E c)
                    ((λ entry, parseSharee tr' (toObject entry)) <$> entries)).
Proof.
  induction entries as [|entry entries IH]; [done|].
  rewrite !fmap_cons, !filter_cons.
  assert (Hsame : isExcluded E (parseSharee tr (toObject entry))
                  ↔ isExcluded E (parseSharee tr' (toObject entry))) by done.
  destruct (decide (¬ isExcluded E (parseSharee tr (toObject entry))))
    as [Hkeep|Hdrop].
  - rewrite decide_True by tauto. rewrite !fmap_cons. by f_equal.
  - by rewrite decide_False by tauto.
Qed.

(** X13.  The translation only touches display names: which entries are
    published, in which order, with which type and share target is the
    same under any two translations. *)
Theorem published_identity_untranslated (tr tr' : QString → QString → QString)
    (reply : QJsonDocument) (this : ShareeModel) :
  identity <$> published tr reply this = identity <$> published tr' reply this.
Proof.
  rewrite !published_entries. apply identity_filter.
Qed.

Lemma published_sound_witness :
  ∃ entry,
    entry ∈ segmentEntries (broadSegment annReply)
            ++ segmentEntries (exactSegment annReply)
    ∧ Some ann = Some (parseSharee untranslated (toObject entry))
    ∧ ¬ isExcluded (_shareeBlacklist idleModel)
          (parseSharee untranslated (toObject entry)).
Proof.
  apply (published_sound untranslated annReply idleModel (Some ann)).
  vm_compute. apply list_elem_of_here.
Defined.

Lemma shareesFetched_no_data_witness :
  shareesFetched untranslated DocumentNull detachedModel =
    (tt, set_sharees [] (set_fetchOngoing false detachedModel),
     [Emit fetchOngoingChanged; Log Info "SearchString: ";
      BeginResetModel; EndResetModel; Emit shareesReady])
  ∧ _sharees (state_of (shareesFetched untranslated DocumentNull detachedModel))
    = []
  ∧ _fetchOngoing
      (state_of (shareesFetched untranslated DocumentNull detachedModel))
    = false.
Proof.
  apply (shareesFetched_no_data untranslated DocumentNull detachedModel).
  intros o. vm_compute. discriminate.
Defined.

Lemma published_antitone_witness :
  published untranslated annReply excludingModel
    `sublist_of` published untranslated annReply idleModel.
Proof.
  apply (published_antitone untranslated annReply idleModel excludingModel).
  vm_compute. apply list_subseteq_nil.
Defined.

Lemma published_all_witness :
  published untranslated annReply idleModel =
    Some <$> (segmentCandidates untranslated (broadSegment annReply)
              ++ segmentCandidates untranslated (exactSegment annReply)).
Proof.
  apply (published_all untranslated annReply idleModel). reflexivity.
Defined.

(** ** Fetch cycles *)

Lemma fetch_run (this : ShareeModel) :
  fetch this =
    if bool_decide (sessionAccount this = None ∨ _searchString this = EmptyString)
    then (tt, this, [Log Info "Not fetching sharees for searchString: "])
    else (tt, set_fetchOngoing true this,
          [Emit fetchOngoingChanged; requestOf this]).
Proof.
  unfold fetch, mbind, Cmd_bind, self.
  destruct (_ || _ || _) eqn:Hguard.
  - apply fetch_guard_true in Hguard. by rewrite bool_decide_eq_true_2.
  - apply not_true_iff_false in Hguard. rewrite fetch_guard_true in Hguard.
    rewrite bool_decide_eq_false_2 by done.
    cbv [assign Q_EMIT effect app requestOf].
    change (sessionAccount (set_fetchOngoing true this))
      with (sessionAccount this).
    cbn [set_fetchOngoing _searchString _shareItemIsFolder _lookupMode].
    by destruct (bool_decide (_lookupMode this = GlobalSearch)).
Qed.

Lemma fetch_ready (this : ShareeModel) (acc : Account) :
  sessionAccount this = Some acc → _searchString this ≠ EmptyString →
  fetch this =
    (tt, set_fetchOngoing true this, [Emit fetchOngoingChanged; requestOf this]).
Proof.
  intros Hacc Htext. rewrite fetch_run, bool_decide_eq_false_2; [done|].
  intros [Hnone|Hempty]; congruence.
Qed.

Lemma fetch_twice_run (this : ShareeModel) (acc : Account) :
  sessionAccount this = Some acc →
  _searchString this ≠ EmptyString →
  (fetch;; fetch) this =
    (tt, set_fetchOngoing true this,
     [Emit fetchOngoingChanged; requestOf this;
      Emit fetchOngoingChanged; requestOf this]).
Proof.
  intros Hacc Htext. unfold mbind at 1, Cmd_bind.
  rewrite (fetch_ready this acc Hacc Htext).
  rewrite (fetch_ready (set_fetchOngoing true this) acc Hacc Htext).
  by destruct this.
Qed.

(** X14.  [fetch] does not look at the fetching flag: while a request is
    in flight a second [fetch] makes the same request again and emits
    the state-changed signal again, although the flag stays true. *)
Theorem fetch_twice (this : ShareeModel) (acc : Account) :
  sessionAccount this = Some acc →
  _searchString this ≠ EmptyString →
  (fetch;; fetch) this =
    (tt, set_fetchOngoing true this,
     [Emit fetchOngoingChanged; requestOf this;
      Emit fetchOngoingChanged; requestOf this])
  ∧ _fetchOngoing (state_of (fetch this)) = true
  ∧ _fetchOngoing (state_of ((fetch;; fetch) this)) = true.
Proof.
  intros Hacc Htext.
  rewrite (fetch_twice_run this acc Hacc Htext).
  rewrite (fetch_ready this acc Hacc Htext).
  by split.
Qed.

(** X15.  The request is made from the members as they are when [fetch]
    runs: after the three setters, in a session and with a non-empty
    text, the one request carries the text, the item kind and the
    lookup mode that were set last. *)
Theorem fetch_after_setters (this : ShareeModel) (acc : Account)
    (text : QString) (folder : bool) (mode : LookupMode) :
  sessionAccount this = Some acc →
  text ≠ EmptyString →
  requests
    (trace_of ((setSearchString text;; setShareItemIsFolder folder;;
                setLookupMode mode;; fetch) this))
  = [GetSharees (Some acc) text (if folder then "folder" else "file") 1 50
       (bool_decide (mode = GlobalSearch))].
Proof.
  intros Hacc Htext.
  rewrite !bind_trace.
  rewrite !setSearchString_run, !setShareItemIsFolder_run, !setLookupMode_run.
  unfold state_of, trace_of. cbn [fst snd].
  rewrite (fetch_ready _ acc); [|done|done].
  rewrite !requests_app. cbn [snd].
  unfold requestOf.
  change (sessionAccount (set_lookupMode mode
            (set_shareItemIsFolder folder (set_searchString text this))))
    with (sessionAccount this). rewrite Hacc.
  by repeat case_bool_decide.
Qed.

Lemma job_cycle_state (tr : QString → QString → QString)
    (this : ShareeModel) (s : JobSignal) :
  state_of (jobSlot tr s (state_of (fetch this))) =
    match s with
    | shareeJobFinished reply =>
        set_sharees (published tr reply this) (set_fetchOngoing false this)
    | ocsError _ _ => set_fetchOngoing false this
    end.
Proof.
  rewrite fetch_run. case_bool_decide; destruct s as [reply|code message];
    unfold state_of, jobSlot, published; cbn [fst snd];
    rewrite ?shareesFetched_run; unfold state_of; cbn [fst snd];
    rewrite ?appendSharees_eq; by destruct this.
Qed.

(** X16.  However the job ends, the cycle leaves the fetching flag
    false and the members set by the user untouched; only a reply
    writes the list. *)
Theorem job_cycle (tr : QString → QString → QString) (this : ShareeModel)
    (s : JobSignal) :
  state_of (jobSlot tr s (state_of (fetch this))) =
    match s with
    | shareeJobFinished reply =>
        set_sharees (published tr reply this) (set_fetchOngoing false this)
    | ocsError _ _ => set_fetchOngoing false this
    end
  ∧ _fetchOngoing (state_of (jobSlot tr s (state_of (fetch this)))) = false
  ∧ _sharees (state_of (jobSlot tr s (state_of (fetch this)))) =
      match s with
      | shareeJobFinished reply => published tr reply this
      | ocsError _ _ => _sharees this
      end
  ∧ _accountState (state_of (jobSlot tr s (state_of (fetch this))))
    = _accountState this
  ∧ _shareItemIsFolder (state_of (jobSlot tr s (state_of (fetch this))))
    = _shareItemIsFolder this
  ∧ _searchString (state_of (jobSlot tr s (state_of (fetch this))))
    = _searchString this
  ∧ _lookupMode (state_of (jobSlot tr s (state_of (fetch this))))
    = _lookupMode this
  ∧ _shareeBlacklist (state_of (jobSlot tr s (state_of (fetch this))))
    = _shareeBlacklist this.
Proof.
  rewrite (job_cycle_state tr this s).
  split; [done|]. by destruct s.
Qed.

(** ** The type code of an entry *)

Lemma Qred_whole (d : Q) (z : Z) : d == inject_Z z → Qred d = inject_Z z.
Proof.
  intros Heq. rewrite (Qred_complete _ _ Heq).
  apply Qcanon.Qred_identity. cbn. apply Z.gcd_1_r.
Qed.

Lemma toInt_whole_number (d : Q) (z : Z) :
  d == inject_Z z → (INT_MIN <= z <= INT_MAX)%Z → toInt (JsonDouble d) = z.
Proof.
  intros Heq [Hlo Hhi]. unfold toInt. rewrite (Qred_whole _ _ Heq).
  cbn [inject_Z Qden Qnum]. rewrite Pos.eqb_refl.
  by rewrite (proj2 (Z.leb_le _ _) Hlo), (proj2 (Z.leb_le _ _) Hhi).
Qed.

Lemma toInt_not_int (d : Q) :
  (∀ z, d == inject_Z z → ¬ (INT_MIN <= z <= INT_MAX)%Z) →
  toInt (JsonDouble d) = 0%Z.
Proof.
  intros Hnot. unfold toInt.
  destruct (Qred d) as [n m] eqn:Hred. cbn [Qden Qnum].
  destruct (Pos.eqb_spec m 1) as [->|]; [|done].
  assert (Heq : d == inject_Z n).
  { rewrite <- (Qred_correct d), Hred. reflexivity. }
  destruct (Z.leb_spec INT_MIN n); [|done].
  destruct (Z.leb_spec n INT_MAX); [|done].
  destruct (Hnot n Heq). lia.
Qed.

(** X17.  The type of a candidate is the [shareType] number itself
    whenever that number is whole and fits an [int], whether or not the
    enumeration names it; a fractional or larger number, like a missing
    one, gives type 0. *)
Theorem parseSharee_type (tr : QString → QString → QString)
    (data : QJsonObject) (d : Q) :
  value (toObject (value data "value")) "shareType" = JsonDouble d →
  (∀ z, d == inject_Z z → (INT_MIN <= z <= INT_MAX)%Z →
        type (parseSharee tr data) = z)
  ∧ ((∀ z, d == inject_Z z → ¬ (INT_MIN <= z <= INT_MAX)%Z) →
     type (parseSharee tr data) = 0%Z).
Proof.
  intros Hfield. unfold parseSharee. cbn [type]. rewrite Hfield. split.
  - intros z. apply toInt_whole_number.
  - apply toInt_not_int.
Qed.

Lemma fetch_twice_witness :
  (fetch;; fetch) idleModel =
    (tt, set_fetchOngoing true idleModel,
     [Emit fetchOngoingChanged; requestOf idleModel;
      Emit fetchOngoingChanged; requestOf idleModel])
  ∧ _fetchOngoing (state_of (fetch idleModel)) = true
  ∧ _fetchOngoing (state_of ((fetch;; fetch) idleModel)) = true.
Proof.
  apply (fetch_twice idleModel (AccountRef 1)).
  - reflexivity.
  - discriminate.
Defined.

Lemma fetch_after_setters_witness :
  requests
    (trace_of ((setSearchString "bob";; setShareItemIsFolder true;;
                setLookupMode GlobalSearch;; fetch) idleModel))
  = [GetSharees (Some (AccountRef 1)) "bob" "folder" 1 50 true].
Proof.
  apply (fetch_after_setters idleModel (AccountRef 1) "bob" true GlobalSearch).
  - reflexivity.
  - discriminate.
Defined.

Lemma parseSharee_type_witness :
  type (parseSharee untranslated
          {[ "value" := JsonObject {[ "shareType" := JsonDouble (14 # 2) ]} ]})
  = 7%Z.
Proof.
  assert (Hfield :
    value (toObject (value
      {[ "value" := JsonObject {[ "shareType" := JsonDouble (14 # 2) ]} ]}
      "value")) "shareType" = JsonDouble (14 # 2)) by (vm_compute; reflexivity).
  apply (proj1 (parseSharee_type untranslated _ (14 # 2) Hfield) 7%Z).
  - reflexivity.
  - vm_compute. split; discriminate.
Defined.

(** ** Typing, the timer and the fetch *)

Lemma run_app (l1 l2 : list Input) (o : Instance) :
  run (l1 ++ l2) o =
    ((run l2 (run l1 o).1).1, (run l1 o).2 ++ (run l2 (run l1 o).1).2).
Proof.
  revert o. induction l1 as [|i l1 IH]; intros o; cbn [run app fst snd].
  - by destruct (run l2 o).
  - destruct (deliver i o) as [o1 t1]. rewrite IH.
    destruct (run l1 o1) as [o2 t2]. cbn [fst snd].
    destruct (run l2 o2) as [o3 t3]. cbn [fst snd].
    by rewrite app_assoc.
Qed.

Lemma edit_run (text : QString) (o : Instance) :
  deliver (Edit text) o =
    if bool_decide (text = _searchString (fields o)) then (o, [])
    else (mkInstance (set_searchString text (fields o))
            (start (_userStoppedTypingTimer o)),
          [Emit searchStringChanged; TimerStart]).
Proof.
  unfold deliver, call. rewrite setSearchString_run.
  case_bool_decide as Hsame; [|done].
  subst text. destruct o as [m t]. cbn. by destruct m.
Qed.

Lemma edits_requests (texts : list QString) (o : Instance) :
  requests (run (Edit <$> texts) o).2 = [].
Proof.
  revert o. induction texts as [|text texts IH]; intros o; [done|].
  rewrite fmap_cons. cbn [run]. rewrite edit_run.
  case_bool_decide.
  - specialize (IH o). by destruct (run (Edit <$> texts) o).
  - specialize (IH (mkInstance (set_searchString text (fields o))
                      (start (_userStoppedTypingTimer o)))).
    by destruct (run (Edit <$> texts) _).
Qed.

Lemma last_cons_default {A} (x d : A) (l : list A) :
  List.last (x :: l) d = List.last l x.
Proof.
  revert x d. induction l as [|y l IH]; intros x d; [done|].
  change (List.last (x :: y :: l) d) with (List.last (y :: l) d).
  by rewrite !IH.
Qed.

Lemma edits_fields (texts : list QString) (o : Instance) :
  fields (run (Edit <$> texts) o).1 =
    set_searchString (List.last texts (_searchString (fields o))) (fields o).
Proof.
  revert o. induction texts as [|text texts IH]; intros o.
  - cbn. by destruct (fields o).
  - rewrite fmap_cons. cbn [run]. rewrite edit_run.
    rewrite last_cons_default. case_bool_decide as Hsame.
    + specialize (IH o). destruct (run (Edit <$> texts) o). cbn [fst] in *.
      by rewrite IH, <- Hsame.
    + specialize (IH (mkInstance (set_searchString text (fields o))
                        (start (_userStoppedTypingTimer o)))).
      destruct (run (Edit <$> texts) _). cbn [fst] in *.
      by rewrite IH.
Qed.

Lemma edits_stay_active (texts : list QString) (o : Instance) :
  isActive (_userStoppedTypingTimer o) = true →
  isActive (_userStoppedTypingTimer (run (Edit <$> texts) o).1) = true.
Proof.
  revert o. induction texts as [|text texts IH]; intros o Hactive; [done|].
  rewrite fmap_cons. cbn [run]. rewrite edit_run. case_bool_decide.
  - specialize (IH o Hactive). by destruct (run (Edit <$> texts) o).
  - specialize (IH (mkInstance (set_searchString text (fields o))
                      (start (_userStoppedTypingTimer o))) eq_refl).
    by destruct (run (Edit <$> texts) _).
Qed.

Lemma edits_arm (texts : list QString) (o : Instance) :
  _searchString (fields (run (Edit <$> texts) o).1) ≠ _searchString (fields o) →
  isActive (_userStoppedTypingTimer (run (Edit <$> texts) o).1) = true.
Proof.
  revert o. induction texts as [|text texts IH]; intros o; [done|].
  rewrite fmap_cons. cbn [run]. rewrite edit_run. case_bool_decide.
  - specialize (IH o). by destruct (run (Edit <$> texts) o).
  - intros _.
    pose proof (edits_stay_active texts
                  (mkInstance (set_searchString text (fields o))
                     (start (_userStoppedTypingTimer o))) eq_refl) as Hactive.
    by destruct (run (Edit <$> texts) _).
Qed.

Lemma edits_timer_setup (texts : list QString) (o : Instance) :
  isSingleShot (_userStoppedTypingTimer (run (Edit <$> texts) o).1)
  = isSingleShot (_userStoppedTypingTimer o).
Proof.
  revert o. induction texts as [|text texts IH]; intros o; [done|].
  rewrite fmap_cons. cbn [run]. rewrite edit_run. case_bool_decide.
  - specialize (IH o). by destruct (run (Edit <$> texts) o).
  - specialize (IH (mkInstance (set_searchString text (fields o))
                      (start (_userStoppedTypingTimer o)))).
    by destruct (run (Edit <$> texts) _).
Qed.

Lemma fetch_keeps_timer (t : QTimer) (this : ShareeModel) :
  foldl timerEffect t (trace_of (fetch this)) = t.
Proof. rewrite fetch_run. by case_bool_decide. Qed.

Lemma timeout_run (o : Instance) :
  timeout o =
    if isActive (_userStoppedTypingTimer o)
    then (mkInstance (state_of (fetch (fields o)))
            (fired (_userStoppedTypingTimer o)),
          trace_of (fetch (fields o)))
    else (o, []).
Proof.
  unfold timeout, call. destruct (isActive _); [|done]. cbn [fields].
  pose proof (fetch_keeps_timer (fired (_userStoppedTypingTimer o)) (fields o))
    as Htimer.
  unfold state_of, trace_of in *.
  destruct (fetch (fields o)) as [[[] m] t].
  cbn [fst snd _userStoppedTypingTimer] in *.
  by rewrite Htimer.
Qed.

(** X18.  Typing alone never fetches: whatever the edits of the search
    text, no request is made before the timer expires. *)
Theorem typing_never_fetches (texts : list QString) (o : Instance) :
  requests (run (Edit <$> texts) o).2 = [].
Proof. apply edits_requests. Qed.

(** X19.  However many edits come before the timer expires, its expiry
    makes one request, and that request carries the text of the last
    edit, provided there is a session and this text is non-empty and
    differs from the text the object was constructed with. *)
Theorem debounce (initial : ShareeModel) (acc : Account)
    (texts : list QString) (text : QString) :
  sessionAccount initial = Some acc →
  text ≠ EmptyString →
  text ≠ _searchString initial →
  requests (run ((Edit <$> texts ++ [text]) ++ [Expire]) (construct initial)).2
  = [GetSharees (Some acc) text
       (if _shareItemIsFolder initial then "folder" else "file") 1 50
       (bool_decide (_lookupMode initial = GlobalSearch))].
Proof.
  intros Hacc Htext Hnew.
  rewrite run_app. cbn [snd].
  rewrite requests_app, edits_requests, app_nil_l.
  pose proof (edits_fields (texts ++ [text]) (construct initial)) as Hfields.
  pose proof (edits_arm (texts ++ [text]) (construct initial)) as Harm.
  rewrite List.last_last in Hfields.
  destruct (run (Edit <$> texts ++ [text]) (construct initial)) as [o t].
  cbn [fst snd construct fields] in *.
  cbn [run deliver]. rewrite timeout_run, Harm.
  - rewrite Hfields, (fetch_ready _ acc); [|done|done].
    unfold trace_of. cbn [fst snd app]. unfold requestOf.
    change (sessionAccount (set_searchString text initial))
      with (sessionAccount initial). by rewrite Hacc.
  - by rewrite Hfields.
Qed.

Lemma reachable_single_shot (inputs : list Input) (o : Instance) :
  isSingleShot (_userStoppedTypingTimer o) = true →
  isSingleShot (_userStoppedTypingTimer (run inputs o).1) = true.
Proof.
  revert o. induction inputs as [|i inputs IH]; intros o Hshot; [done|].
  cbn [run].
  assert (Hstep : isSingleShot (_userStoppedTypingTimer (deliver i o).1) = true).
  { destruct i as [text|]; cbn [deliver].
    - fold (deliver (Edit text) o). rewrite edit_run.
      by case_bool_decide.
    - rewrite timeout_run. by destruct (isActive _). }
  destruct (deliver i o) as [o1 t1]. cbn [fst] in Hstep.
  specialize (IH o1 Hstep). destruct (run inputs o1) as [o2 t2].
  exact IH.
Qed.

(** X20.  The timer of a constructed object is single-shot: in every
    state the object can reach, once an expiry has been delivered a
    second one without an edit in between does nothing at all. *)
Theorem expire_once (initial : ShareeModel) (inputs : list Input) :
  deliver Expire
    (deliver Expire (run inputs (construct initial)).1).1
  = ((deliver Expire (run inputs (construct initial)).1).1, []).
Proof.
  pose proof (reachable_single_shot inputs (construct initial) eq_refl)
    as Hshot.
  destruct (run inputs (construct initial)) as [o t]. cbn [fst] in *.
  cbn [deliver]. rewrite (timeout_run o).
  destruct (isActive (_userStoppedTypingTimer o)) eqn:Hactive; cbn [fst].
  - rewrite timeout_run. cbn [_userStoppedTypingTimer fired isActive].
    by rewrite Hshot.
  - by rewrite timeout_run, Hactive.
Qed.

Lemma debounce_witness :
  requests (run ((Edit <$> ["b"; "bo"] ++ ["bob"]) ++ [Expire])
              (construct idleModel)).2
  = [GetSharees (Some (AccountRef 1)) "bob" "file" 1 50 false].
Proof.
  apply (debounce idleModel (AccountRef 1) ["b"; "bo"] "bob").
  - reflexivity.
  - discriminate.
  - discriminate.
Defined.

(** ** Missing and malformed parts of a reply *)

Section Tolerance.

Variable tr : QString → QString → QString.

Lemma toArray_insert_missing (segment : QJsonObject) (category key : string) :
  segment !! category = None →
  toArray (value (<[category := JsonArray []]> segment) key)
  = toArray (value segment key).
Proof.
  intros Hmissing. unfold value.
  destruct (decide (category = key)) as [<-|Hne].
  - by rewrite lookup_insert_eq, Hmissing.
  - by rewrite lookup_insert_ne.
Qed.

Lemma segmentCandidates_insert_missing (segment : QJsonObject)
    (category : string) :
  segment !! category = None →
  segmentCandidates tr (<[category := JsonArray []]> segment)
  = segmentCandidates tr segment.
Proof.
  intros Hmissing. unfold segmentCandidates, categoryCandidates.
  by rewrite !(toArray_insert_missing _ _ _ Hmissing).
Qed.

Lemma segmentCandidates_no_category (segment : QJsonObject) :
  (∀ category, category ∈ shareeTypes → segment !! category = None) →
  segmentCandidates tr segment = [].
Proof.
  intros Hmissing. unfold segmentCandidates, categoryCandidates.
  assert (Hnone : ∀ category, category ∈ shareeTypes →
                    toArray (value segment category) = []).
  { intros category Hin. by rewrite (value_missing _ _ (Hmissing _ Hin)). }
  rewrite !Hnone; [done|..]; unfold shareeTypes;
    repeat (apply list_elem_of_here || apply list_elem_of_further).
Qed.

Lemma filter_split_length {A} (Q : A → Prop) `{!∀ x, Decision (Q x)}
    (l : list A) :
  length (filter (λ x, ¬ Q x) l) + length (filter Q l) = length l.
Proof.
  induction l as [|x l IH]; [done|].
  rewrite !filter_cons.
  destruct (decide (Q x)) as [HQ|HQ].
  - rewrite decide_False by tauto. cbn [length]. lia.
  - rewrite decide_True by done. cbn [length]. lia.
Qed.

(** C9.  In the loops of [appendSharees] a category key missing from a
    segment does what an empty array under that key does, and a segment
    without any of the six keys appends nothing; an entry that is no
    object, or whose fields are missing or of another type, is parsed
    with the defaults (empty string, type 0); every entry of the six
    categories of both segments ends up published or excluded, none is
    dropped; and handling a reply always has the same five effects, none
    of them an error, and leaves the fetching flag false. *)
Theorem parsing_never_fails (reply : QJsonDocument) (this : ShareeModel) :
  (∀ (segment : QJsonObject) (category : string) (newSharees : list ShareePtr),
     segment !! category = None →
     appendSharees tr this segment newSharees
     = appendSharees tr this (<[category := JsonArray []]> segment) newSharees)
  ∧ (∀ (segment : QJsonObject) (newSharees : list ShareePtr),
       (∀ category, category ∈ shareeTypes → segment !! category = None) →
       appendSharees tr this segment newSharees = newSharees)
  ∧ (∀ entry : QJsonValue,
       (∀ o, entry ≠ JsonObject o) →
       parseSharee tr (toObject entry) = mkSharee EmptyString EmptyString 0)
  ∧ (∀ entry : QJsonObject,
       entry !! "label" = None → entry !! "value" = None →
       parseSharee tr entry = mkSharee EmptyString EmptyString 0)
  ∧ (∀ entry : QJsonObject,
       (∀ s, value (toObject (value entry "value")) "shareWith" ≠ JsonString s) →
       shareWith (parseSharee tr entry) = EmptyString)
  ∧ (∀ entry : QJsonObject,
       (∀ d, value (toObject (value entry "value")) "shareType" ≠ JsonDouble d) →
       type (parseSharee tr entry) = 0%Z)
  ∧ (∀ entry : QJsonObject,
       (∀ s, value entry "label" ≠ JsonString s) →
       (∀ s, value (toObject (value entry "value")) "shareWithAdditionalInfo"
             ≠ JsonString s) →
       displayName (parseSharee tr entry) = EmptyString)
  ∧ length (published tr reply this)
    + length (filter (isExcluded (_shareeBlacklist this))
                ((λ entry, parseSharee tr (toObject entry))
                   <$> (segmentEntries (broadSegment reply)
                        ++ segmentEntries (exactSegment reply))))
    = length (segmentEntries (broadSegment reply)
              ++ segmentEntries (exactSegment reply))
  ∧ trace_of (shareesFetched tr reply this) =
      [Emit fetchOngoingChanged; Log Info "SearchString: ";
       BeginResetModel; EndResetModel; Emit shareesReady]
  ∧ _fetchOngoing (state_of (shareesFetched tr reply this)) = false.
Proof.
  split; [|split; [|split; [|split; [|split; [|split; [|split;
    [|split; [|split]]]]]]]].
  - intros segment category newSharees Hmissing.
    by rewrite !appendSharees_eq, (segmentCandidates_insert_missing _ _ Hmissing).
  - intros segment newSharees Hmissing.
    rewrite appendSharees_eq, (segmentCandidates_no_category _ Hmissing).
    by rewrite filter_nil, app_nil_r.
  - intros entry Hentry.
    assert (toObject entry = ∅) as ->.
    { destruct entry; try done. by destruct (Hentry o). }
    reflexivity.
  - intros entry Hlabel Hvalue. unfold parseSharee.
    by rewrite (value_missing _ _ Hlabel), (value_missing _ _ Hvalue).
  - intros entry Hfield. unfold parseSharee. cbn [shareWith].
    by apply toString_default.
  - intros entry Hfield. unfold parseSharee. cbn [type].
    by apply toInt_default.
  - intros entry Hlabel Hinfo. unfold parseSharee. cbn [displayName].
    by rewrite (toString_default _ Hinfo), (toString_default _ Hlabel).
  - rewrite published_entries, length_fmap, filter_split_length.
    by rewrite length_fmap.
  - by rewrite shareesFetched_run.
  - by rewrite shareesFetched_run.
Qed.

End Tolerance.

Lemma parsing_never_fails_witness :
  appendSharees untranslated idleModel (broadSegment annReply) []
  = appendSharees untranslated idleModel
      (<["groups" := JsonArray []]> (broadSegment annReply)) []
  ∧ appendSharees untranslated idleModel ∅ [Some ann] = [Some ann]
  ∧ parseSharee untranslated (toObject (JsonString "ann"))
    = mkSharee EmptyString EmptyString 0
  ∧ parseSharee untranslated ∅ = mkSharee EmptyString EmptyString 0.
Proof.
  pose proof (parsing_never_fails untranslated annReply idleModel)
    as (Hcategory & Hsegment & Hentry & Hfields & _).
  split; [|split; [|split]].
  - apply Hcategory. vm_compute. reflexivity.
  - apply Hsegment. intros category _. apply lookup_empty.
  - apply Hentry. intros o. discriminate.
  - apply Hfields; apply lookup_empty.
Defined.
